(** * wysknd-identity: the [User] principal

    A shallow embedding of [lib/user.js] and a verification of its
    constructor protocol, its accessors and its role query.

    The class works on JavaScript values that live in a garbage collected
    heap: arrays and objects are handled through references, and several of
    the properties below are about which references are shared between the
    caller and the constructed [User].  The embedding therefore threads an
    explicit heap through every operation.

    Scope of the object model: an object is a class tag together with its
    own enumerable data properties in insertion order.  The class says what
    the prototype is: [Plain] for an object literal or a parsed JSON object
    ([Object.prototype]), [UserClass] for an instance of [User]
    ([User.prototype]), and [Inherits v] for an object whose prototype was
    replaced by [v] through an assignment to [__proto__], which is what the
    constructor does to the new object when the record it copies from has an
    own property of that name.  Of the members of the prototypes the model
    has those the class defines: the accessors [username] and [roles] (getter
    only), the method [hasRole], and the setter of [__proto__].

    Outside the model are: the other members of [Object.prototype]
    ([constructor], [toString], the getter of [__proto__], ...); reads,
    writes and enumeration through a replaced prototype (an [Inherits v]
    object is read by its own properties, which is exact for [v = null]);
    accessor properties of the caller's objects; arrays with holes or named
    properties; numbers other than integers; and a receiver of [hasRole]
    whose [_roles] is not an array.  The statements about accessors and the
    method therefore assume input without an own [__proto__], and the
    statements about absent names speak of own properties. *)

From Stdlib Require Import ZArith.
From stdpp Require Import base strings list gmap.

Local Open Scope string_scope.
Local Open Scope list_scope.

(** ** Values and heap *)

Abbreviation loc := nat (only parsing).

Inductive value : Type :=
| VUndefined
| VNull
| VBool (b : bool)
| VNumber (n : Z)
| VString (s : string)
| VFunction (name : string)
| VRef (l : loc).

(** The prototype of an object: [Object.prototype], [User.prototype], or the
    value that an assignment to [__proto__] has put in its place. *)
Inductive class : Type :=
| Plain
| UserClass
| Inherits (parent : value).

Inductive object : Type :=
| OArray (elems : list value)
| OObject (cls : class) (fields : list (string * value)).

Abbreviation heap := (list object) (only parsing).

Global Instance value_eq_dec : EqDecision value.
Proof. solve_decision. Defined.

Global Instance class_eq_dec : EqDecision class.
Proof. solve_decision. Defined.

Global Instance object_eq_dec : EqDecision object.
Proof. solve_decision. Defined.

(** Exceptions: [Error] is what the constructor throws itself; [TypeError]
    and [RangeError] are raised by the language. *)
Inductive exn : Type :=
| Error (msg : string)
| TypeError (msg : string)
| RangeError (msg : string).

Inductive outcome (A : Type) : Type :=
| Ret (a : A)
| Throw (e : exn).
Arguments Ret {A} a.
Arguments Throw {A} e.

(** A computation reads and writes the heap and either returns or throws. *)
Definition M (A : Type) : Type := heap -> outcome A * heap.

Definition ret {A} (a : A) : M A := fun h => (Ret a, h).
Definition throw {A} (e : exn) : M A := fun h => (Throw e, h).
Definition bind {A B} (m : M A) (k : A -> M B) : M B :=
  fun h => match m h with
           | (Ret a, h') => k a h'
           | (Throw e, h') => (Throw e, h')
           end.
Definition get_heap : M heap := fun h => (Ret h, h).

Declare Scope js_scope.
Delimit Scope js_scope with js.
Notation "x <- c ;; k" := (bind c (fun x => k))
  (at level 100, c at next level, right associativity) : js_scope.
Notation "c ;;; k" := (bind c (fun _ => k))
  (at level 100, right associativity) : js_scope.

(** [alloc o] is the allocation of a new object: the next free address. *)
Definition alloc (o : object) : M value :=
  fun h => (Ret (VRef (length h)), h ++ [o]).

(** ** Primitive operations of the language *)

Definition typeof (v : value) : string :=
  match v with
  | VUndefined => "undefined"
  | VNull => "object"
  | VBool _ => "boolean"
  | VNumber _ => "number"
  | VString _ => "string"
  | VFunction _ => "function"
  | VRef _ => "object"
  end.

(** [truthy v] is the boolean the language converts [v] to; [!v] is its
    negation. *)
Definition truthy (v : value) : bool :=
  match v with
  | VUndefined | VNull => false
  | VBool b => b
  | VNumber n => negb (Z.eqb n 0)
  | VString s => negb (String.eqb s "")
  | VFunction _ | VRef _ => true
  end.

(** [v instanceof Array] *)
Definition instanceof_Array (h : heap) (v : value) : bool :=
  match v with
  | VRef l => match h !! l with
              | Some (OArray _) => true
              | _ => false
              end
  | _ => false
  end.

(** [a === b] *)
Definition strict_eq (a b : value) : bool :=
  match a, b with
  | VUndefined, VUndefined => true
  | VNull, VNull => true
  | VBool x, VBool y => Bool.eqb x y
  | VNumber x, VNumber y => Z.eqb x y
  | VString x, VString y => String.eqb x y
  | VFunction x, VFunction y => String.eqb x y
  | VRef x, VRef y => Nat.eqb x y
  | _, _ => false
  end.

(** [Array.prototype.indexOf]: position of the first element strictly equal
    to [x], or -1. *)
Fixpoint indexOf_from (i : Z) (xs : list value) (x : value) : Z :=
  match xs with
  | [] => (-1)%Z
  | y :: ys => if strict_eq y x then i else indexOf_from (i + 1)%Z ys x
  end.

Definition indexOf (xs : list value) (x : value) : Z := indexOf_from 0%Z xs x.

(** Own properties of an object, in insertion order. *)
Fixpoint field (k : string) (fs : list (string * value)) : option value :=
  match fs with
  | [] => None
  | (k', v) :: fs' => if String.eqb k' k then Some v else field k fs'
  end.

Fixpoint set_field (k : string) (v : value) (fs : list (string * value))
  : list (string * value) :=
  match fs with
  | [] => [(k, v)]
  | (k', v') :: fs' =>
      if String.eqb k' k then (k, v) :: fs' else (k', v') :: set_field k v fs'
  end.

(** The method object [User.prototype.hasRole]. *)
Definition hasRole_method : value := VFunction "hasRole".

(** What the prototype of a class answers for a name that is not an own
    property; [fs] are the own properties of the receiver, which the getters
    of [User] read. *)
Definition proto_get (c : class) (fs : list (string * value)) (k : string)
  : value :=
  match c with
  | Plain => VUndefined
  | Inherits _ => VUndefined
  | UserClass =>
      if String.eqb k "username" then
        match field "_username" fs with Some v => v | None => VUndefined end
      else if String.eqb k "roles" then
        match field "_roles" fs with Some v => v | None => VUndefined end
      else if String.eqb k "hasRole" then hasRole_method
      else VUndefined
  end.

(** [v[k]] and [v.k] for an object [v]; own properties shadow the
    prototype. *)
Definition get_prop (h : heap) (v : value) (k : string) : value :=
  match v with
  | VRef l =>
      match h !! l with
      | Some (OObject c fs) =>
          match field k fs with
          | Some x => x
          | None => proto_get c fs k
          end
      | _ => VUndefined
      end
  | _ => VUndefined
  end.

(** Names for which the prototype of the class has an accessor without a
    setter. *)
Definition getter_only (c : class) (k : string) : bool :=
  match c with
  | Plain => false
  | Inherits _ => false
  | UserClass => String.eqb k "username" || String.eqb k "roles"
  end.

(** What the setter of [__proto__] takes as a prototype: an object or
    [null]; it ignores any other value. *)
Definition is_prototype (v : value) : bool :=
  match v with
  | VNull | VRef _ | VFunction _ => true
  | _ => false
  end.

(** Whether an assignment to [k], on an object of class [c] that has no own
    property [k], runs the setter of [__proto__]: the name is [__proto__]
    and [Object.prototype] is on the prototype chain, as it is for the two
    classes and is not below [null]. *)
Definition proto_setter (c : class) (k : string) : bool :=
  String.eqb k "__proto__"
  && match c with
     | Inherits VNull => false
     | _ => true
     end.

(** [target[k] = v] in strict mode.  An own property is overwritten.
    Otherwise the assignment goes through the prototype: through a
    getter-only accessor it throws, through the setter of [__proto__] it
    replaces the prototype (or does nothing, for a primitive [v]) and makes
    no own property; in every other case it makes a new own property.
    Assigning to something that is not an object throws. *)
Definition set_prop (target : value) (k : string) (v : value) : M unit :=
  fun h =>
    match target with
    | VRef l =>
        match h !! l with
        | Some (OObject c fs) =>
            match field k fs with
            | None =>
                if getter_only c k
                then (Throw (TypeError "Cannot set property which has only a getter"), h)
                else if proto_setter c k
                then if is_prototype v
                     then (Ret tt, <[l := OObject (Inherits v) fs]> h)
                     else (Ret tt, h)
                else (Ret tt, <[l := OObject c (set_field k v fs)]> h)
            | Some _ => (Ret tt, <[l := OObject c (set_field k v fs)]> h)
            end
        | Some (OArray _) => (Ret tt, h)
        | None => (Throw (TypeError "Cannot set properties of undefined"), h)
        end
    | _ => (Throw (TypeError "Cannot create property on a primitive"), h)
    end.

(** The own enumerable properties of [v], in insertion order: the names a
    [for (prop in v)] loop visits (the members of the two prototypes are not
    enumerable). *)
Definition own_keys (h : heap) (v : value) : list string :=
  match v with
  | VRef l =>
      match h !! l with
      | Some (OObject _ fs) => fs.*1
      | _ => []
      end
  | _ => []
  end.

Fixpoint for_each {A} (xs : list A) (body : A -> M unit) : M unit :=
  match xs with
  | [] => ret tt
  | x :: xs' => (body x ;;; for_each xs' body)%js
  end.

(** ** The [clone] library

    [clone] is the npm package of that name, which the constructor calls as
    [_clone]. *)

(** The state of one [clone] call: which source objects already have a copy
    (the library keeps this to support circular structures), and the heap
    the copies are allocated in. *)
Definition clone_state : Type := gmap nat nat * list object.

Fixpoint clone_all (f : value -> clone_state -> option (value * clone_state))
    (vs : list value) (st : clone_state) : option (list value * clone_state) :=
  match vs with
  | [] => Some ([], st)
  | v :: vs' =>
      match f v st with
      | None => None
      | Some (v', st1) =>
          match clone_all f vs' st1 with
          | None => None
          | Some (vs'', st2) => Some (v' :: vs'', st2)
          end
      end
  end.

(** The copy of [o] with the already copied children [vs] put in place. *)
Definition rebuild (o : object) (vs : list value) : object :=
  match o with
  | OArray _ => OArray vs
  | OObject c fs => OObject c (zip (fs.*1) vs)
  end.

Definition children (o : object) : list value :=
  match o with
  | OArray vs => vs
  | OObject _ fs => fs.*2
  end.

(** Modelled from the spec: the [clone] package is a dependency that is not
    part of the sources; the specification calls its result a deep copy that
    is independent of the argument.  [clone_go n h0 v st] copies the structure
    that [v] has in [h0]: primitives and functions are returned as they are,
    an object or array gets a new object of the same class whose children are
    the copies of the children, and an object met a second time yields the
    copy made the first time.  [n] bounds the depth of the recursion; [None]
    stands for the exhaustion of the call stack. *)
Fixpoint clone_go (n : nat) (h0 : heap) (v : value) (st : clone_state)
  : option (value * clone_state) :=
  match v with
  | VRef l =>
      match st.1 !! l with
      | Some l' => Some (VRef l', st)
      | None =>
          match h0 !! l with
          | None => Some (v, st)
          | Some o =>
              match n with
              | O => None
              | S n' =>
                  let l' := length st.2 in
                  let st1 := (<[l := l']> st.1, st.2 ++ [rebuild o []]) in
                  match clone_all (clone_go n' h0) (children o) st1 with
                  | None => None
                  | Some (vs, st2) =>
                      Some (VRef l', (st2.1, <[l' := rebuild o vs]> st2.2))
                  end
              end
          end
      end
  | _ => Some (v, st)
  end.

Definition _clone (v : value) : M value :=
  fun h =>
    match clone_go (length h) h v (∅, h) with
    | Some (v', st) => (Ret v', st.2)
    | None => (Throw (RangeError "Maximum call stack size exceeded"), h)
    end.


(** ** The class [User] *)

Definition RESERVED_KEYWORDS : list value :=
  [VString "_username"; VString "username"; VString "roles";
   VString "_roles"; VString "hasRole"].

Definition MSG_ROLES_ARG : string := "Invalid roles specified (arg #2)".
Definition MSG_USER_DATA : string :=
  "Invalid user data specified (arg #1). Must be a string or object.".
Definition MSG_USERNAME : string :=
  "User data does not define a valid username (user.username)".
Definition MSG_ROLES_FIELD : string :=
  "User data does not define valid roles (user.roles)".

(** [!v || (v instanceof Array) || typeof v !== 'object'] *)
Definition not_plain_object (h : heap) (v : value) : bool :=
  negb (truthy v) || instanceof_Array h v
  || negb (String.eqb (typeof v) "object").

(** [typeof u !== 'string' || u.length <= 0]; the right operand is only
    evaluated for strings. *)
Definition invalid_username (u : value) : bool :=
  negb (String.eqb (typeof u) "string")
  || match u with
     | VString s => (Z.of_nat (String.length s) <=? 0)%Z
     | _ => false
     end.

(** The first branch of the constructor: the working record of the
    positional form. *)
Definition from_parts (username roles props : value) : M value :=
  (h <- get_heap ;;
   if negb (instanceof_Array h roles) then throw (Error MSG_ROLES_ARG)
   else
     props <- (if not_plain_object h props
               then alloc (OObject Plain [])
               else ret props) ;;
     user <- _clone props ;;
     set_prop user "username" username ;;;
     set_prop user "roles" roles ;;;
     ret user)%js.

(** The working record of either form. *)
Definition working_record (user roles props : value) : M value :=
  (if String.eqb (typeof user) "string" then from_parts user roles props
   else
     h <- get_heap ;;
     if not_plain_object h user then throw (Error MSG_USER_DATA)
     else ret user)%js.

(** The body of the [for (let prop in user)] loop. *)
Definition adopt (this user : value) (prop : string) : M unit :=
  (if (indexOf RESERVED_KEYWORDS (VString prop) <? 0)%Z
   then h <- get_heap ;; set_prop this prop (get_prop h user prop)
   else ret tt)%js.

(** The rest of the constructor, once the working record [user] is known:
    validation, adoption of the fields, and the two internal fields. *)
Definition populate (this user : value) : M unit :=
  (h <- get_heap ;;
   if invalid_username (get_prop h user "username")
   then throw (Error MSG_USERNAME)
   else if negb (instanceof_Array h (get_prop h user "roles"))
   then throw (Error MSG_ROLES_FIELD)
   else
     for_each (own_keys h user) (adopt this user) ;;;
     h <- get_heap ;;
     set_prop this "_username" (get_prop h user "username") ;;;
     h <- get_heap ;;
     r <- _clone (get_prop h user "roles") ;;
     set_prop this "_roles" r)%js.

Definition constructor (this user roles props : value) : M unit :=
  (user <- working_record user roles props ;;
   populate this user)%js.

(** [new User(user, roles, props)]; an argument that is not passed is
    [VUndefined]. *)
Definition new_User (user roles props : value) : M value :=
  (this <- alloc (OObject UserClass []) ;;
   constructor this user roles props ;;;
   ret this)%js.

(** The elements of an array value. *)
Definition elems (h : heap) (v : value) : list value :=
  match v with
  | VRef l => match h !! l with
              | Some (OArray vs) => vs
              | _ => []
              end
  | _ => []
  end.

(** The [for] loop of [hasRole] over the elements of the query.  On every
    constructed [User] the internal [_roles] is an array; [indexOf] is the
    one of arrays, and a receiver without it makes the call throw. *)
Fixpoint hasRole_loop (this : value) (roles : list value) : M bool :=
  match roles with
  | [] => ret false
  | r :: roles' =>
      (h <- get_heap ;;
       let mine := get_prop h this "_roles" in
       if instanceof_Array h mine then
         if (0 <=? indexOf (elems h mine) r)%Z then ret true
         else hasRole_loop this roles'
       else throw (TypeError "this._roles.indexOf is not a function"))%js
  end.

Definition hasRole (this roles : value) : M bool :=
  (roles <- (if String.eqb (typeof roles) "string"
             then alloc (OArray [roles])
             else ret roles) ;;
   h <- get_heap ;;
   if instanceof_Array h roles then hasRole_loop this (elems h roles)
   else ret false)%js.

(** The expressions [user.username] and [user.roles] of a caller. *)
Definition read_username (h : heap) (user : value) : value :=
  get_prop h user "username".
Definition read_roles (h : heap) (user : value) : value :=
  get_prop h user "roles".


(** Any in-place change of the array [a], which leaves it an array. *)
Definition array_overwrite (a : value) (vs : list value) : M unit :=
  fun h =>
    match a with
    | VRef l =>
        match h !! l with
        | Some (OArray _) => (Ret tt, <[l := OArray vs]> h)
        | _ => (Throw (TypeError "not an array"), h)
        end
    | _ => (Throw (TypeError "not an array"), h)
    end.

(** ** Predicates of the specification *)

Definition reserved (k : string) : Prop :=
  k ∈ ["_username"; "username"; "roles"; "_roles"; "hasRole"].

Global Instance reserved_dec k : Decision (reserved k).
Proof. unfold reserved. apply _. Defined.

(** The source objects that have no copy yet: the measure that bounds the
    depth of the traversal. *)
Definition unvisited (h0 : heap) (vis : gmap nat nat) : nat :=
  size (set_seq 0 (length h0) ∖ dom vis : gset nat).

(** [st'] is [st] after some copies were made: more objects are visited and
    the heap has grown at its end. *)
Definition extends (st st' : clone_state) : Prop :=
  st.1 ⊆ st'.1 /\ exists k, st'.2 = st.2 ++ k.

(** Values that are not references: [clone] hands them back. *)
Definition primitive (v : value) : Prop :=
  match v with VRef _ => False | _ => True end.

(** A record: a plain object, the [Mapping] of the interface. *)
Definition is_record (h : heap) (v : value) : Prop :=
  exists l fs, v = VRef l /\ h !! l = Some (OObject Plain fs).

(** What the positional form takes as [props]: something it replaces by an
    empty record, or a record. *)
Definition props_ok (h : heap) (v : value) : Prop :=
  not_plain_object h v = true \/ is_record h v.

(** [principal_of h h' c u rs wfs tfs lr' rs']: in the heap [h'] that
    [new User] leaves when it starts in [h], the new object sits at the
    first free address of [h] with class [c] and own properties [tfs]; [u]
    and [rs] are the validated username and the elements of the validated
    roles array; [wfs] are the fields of the working record; [lr'] is the
    address of the internal roles array and [rs'] its elements. *)
Record principal_of (h h' : list object) (c : class) (u : string)
    (rs : list value) (wfs tfs : list (string * value)) (lr' : nat)
    (rs' : list value) : Prop := {
  po_frame : forall l, l < length h -> h' !! l = h !! l;
  po_this : h' !! length h = Some (OObject c tfs);
  po_class : "__proto__" ∉ wfs.*1 -> c = UserClass;
  po_no_proto : "__proto__" ∉ wfs.*1 -> field "__proto__" tfs = None;
  po_username : field "_username" tfs = Some (VString u);
  po_nonempty : u ≠ "";
  po_roles : field "_roles" tfs = Some (VRef lr');
  po_fresh : length h < lr';
  po_array : h' !! lr' = Some (OArray rs');
  po_reserved : forall key, reserved key -> key ≠ "_username" ->
                key ≠ "_roles" -> field key tfs = None;
  po_extras : forall key, ~ reserved key -> key ≠ "__proto__" ->
              field key tfs = field key wfs;
  po_length : length rs' = length rs;
  po_copy : Forall primitive rs -> rs' = rs
}.

(** The internal role list of the object at [p] is the array with elements
    [mine]. *)
Definition internal_roles (h : heap) (p : nat) (mine : list value) : Prop :=
  exists lr, get_prop h (VRef p) "_roles" = VRef lr
             /\ h !! lr = Some (OArray mine).

(** The query [q] names a role of [mine]: as a string that is an element, or
    as an array with an element in common. *)
Definition overlaps (h : heap) (mine : list value) (q : value) : Prop :=
  (exists s, q = VString s /\ VString s ∈ mine)
  \/ (exists l qs x, q = VRef l /\ h !! l = Some (OArray qs)
                     /\ x ∈ qs /\ x ∈ mine).

Definition sample_heap : list object :=
  [OArray [VString "user"; VString "admin"];
   OObject Plain [("username", VString "foobar"); ("roles", VRef 0);
                  ("foo", VString "bar"); ("abc", VNumber 123);
                  ("_roles", VString "should not assign");
                  ("nested", VRef 2)];
   OObject Plain [("depth", VNumber 1)];
   OObject Plain [("hasRole", VString "should not assign");
                  ("foo", VString "bar")]].

(** [new User('bob', roles)] in [sample_heap], with [roles] its array. *)
Definition sample_bob : outcome value * list object :=
  new_User (VString "bob") (VRef 0) VUndefined sample_heap.

(** [new User(record)] in [sample_heap], with [record] its first object. *)
Definition sample_foobar : outcome value * list object :=
  new_User (VRef 1) VUndefined VUndefined sample_heap.


(** The roles sequence a caller hands to the constructor: the second
    argument in the positional form, the [roles] field of the record
    otherwise. *)
Definition caller_roles (h : heap) (user roles : value) : value :=
  if String.eqb (typeof user) "string" then roles else get_prop h user "roles".

(** Something that is not a record: a primitive, a function or an array. *)
Definition not_a_record (h : heap) (v : value) : Prop :=
  match v with
  | VRef l => exists vs, h !! l = Some (OArray vs)
  | _ => True
  end.



(** The username and roles of the input are valid: the username is the
    non-empty string [u] and the roles are the array at [lr]. *)
Definition valid_input (h : heap) (user roles : value) (u : string)
    (lr : nat) : Prop :=
  u ≠ ""
  /\ (exists rs, h !! lr = Some (OArray rs))
  /\ caller_roles h user roles = VRef lr
  /\ (if String.eqb (typeof user) "string" then user
      else get_prop h user "username") = VString u.

(** A sentinel: a value of the caller, made before the construction, that is
    neither the validated username nor the method of the class, so that
    meeting it on the Principal can only mean that the attribute was
    adopted. *)
Definition sentinel (h : heap) (u : string) (s : value) : Prop :=
  s ≠ VString u /\ s ≠ hasRole_method /\ (forall l, s = VRef l -> l < length h).

(** ** Further predicates *)

(** A value whose reference, if it is one, is to an object of [h]. *)
Definition allocated (h : heap) (v : value) : Prop :=
  match v with
  | VRef l => l < length h
  | _ => True
  end.

(** The [roles] field of a record is absent or is not an array. *)
Definition invalid_roles_field (h : heap) (fs : list (string * value)) : Prop :=
  match field "roles" fs with
  | Some (VRef lr) => forall vs, h !! lr ≠ Some (OArray vs)
  | _ => True
  end.




(** The record in which a caller supplies the attributes: the third
    argument in the positional form, the first otherwise. *)
Definition supplied_record (user props : value) : value :=
  if String.eqb (typeof user) "string" then props else user.

(** The supplied record is an ordinary one: its prototype has not been
    replaced, and it has no own property named [__proto__] (an object literal
    never has one; [JSON.parse] can make one). *)
Definition no_proto_key (h : heap) (user props : value) : Prop :=
  match supplied_record user props with
  | VRef l =>
      match h !! l with
      | Some (OObject (Inherits _) _) => False
      | Some (OObject _ fs) => "__proto__" ∉ fs.*1
      | _ => True
      end
  | _ => True
  end.

Global Instance no_proto_key_dec h user props :
  Decision (no_proto_key h user props).
Proof. unfold no_proto_key. repeat case_match; apply _. Defined.

(** The supplied record, an object of any class, has an own property [name]
    with value [s]. *)
Definition supplies_attribute (h : heap) (user props : value) (name : string)
    (s : value) : Prop :=
  exists l c fs,
    supplied_record user props = VRef l
    /\ h !! l = Some (OObject c fs)
    /\ field name fs = Some s.

(** C3, as stated: whenever the input supplies an attribute under a reserved
    name and username and roles are valid, the construction returns and the
    value under that name is not the sentinel. *)
Definition reserved_names_always_protected : Prop :=
  forall (h : list object) user roles props name s u lr,
    reserved name ->
    supplies_attribute h user props name s ->
    valid_input h user roles u lr ->
    exists h1,
      new_User user roles props h = (Ret (VRef (length h)), h1)
      /\ (sentinel h u s -> get_prop h1 (VRef (length h)) name ≠ s).

(** * Verification *)

(** ** Own properties *)

Lemma field_set_field_eq k v fs : field k (set_field k v fs) = Some v.
Proof.
  induction fs as [|[k' v'] fs IH]; simpl.
  - by rewrite String.eqb_refl.
  - destruct (String.eqb k' k) eqn:E; simpl.
    + by rewrite String.eqb_refl.
    + by rewrite E.
Qed.

Lemma field_set_field_ne k k' v fs :
  k ≠ k' -> field k' (set_field k v fs) = field k' fs.
Proof.
  intros Hne. induction fs as [|[k0 v0] fs IH]; simpl.
  - destruct (String.eqb k k') eqn:E; [|done].
    by apply String.eqb_eq in E.
  - destruct (String.eqb k0 k) eqn:E; simpl.
    + apply String.eqb_eq in E as ->.
      destruct (String.eqb k k') eqn:E'; [|done].
      by apply String.eqb_eq in E'.
    + by rewrite IH.
Qed.

Lemma field_Some_keys k fs v : field k fs = Some v -> k ∈ fs.*1.
Proof.
  induction fs as [|[k' v'] fs IH]; simpl; [done|].
  destruct (String.eqb k' k) eqn:E.
  - apply String.eqb_eq in E as ->. intros _. apply list_elem_of_here.
  - intros H. apply list_elem_of_further. auto.
Qed.

Lemma field_None_keys k fs : field k fs = None <-> k ∉ fs.*1.
Proof.
  induction fs as [|[k' v'] fs IH]; simpl.
  - split; [intros _; apply not_elem_of_nil | done].
  - destruct (String.eqb k' k) eqn:E.
    + apply String.eqb_eq in E as ->. split; [done|].
      intros H. exfalso. apply H. apply list_elem_of_here.
    + apply String.eqb_neq in E. rewrite IH, not_elem_of_cons. naive_solver.
Qed.

Lemma field_keys_is_Some k fs : k ∈ fs.*1 -> is_Some (field k fs).
Proof.
  intros Hin. destruct (field k fs) eqn:E; [eauto|].
  by apply field_None_keys in E.
Qed.

(** ** Strict equality and [indexOf] *)

Lemma strict_eq_true a b : strict_eq a b = true <-> a = b.
Proof.
  destruct a, b; simpl; try (split; [discriminate | congruence]); try done.
  - rewrite Bool.eqb_true_iff. naive_solver.
  - rewrite Z.eqb_eq. naive_solver.
  - rewrite String.eqb_eq. naive_solver.
  - rewrite String.eqb_eq. naive_solver.
  - rewrite Nat.eqb_eq. naive_solver.
Qed.

Lemma indexOf_from_range i xs x :
  (indexOf_from i xs x = -1 \/ i <= indexOf_from i xs x)%Z.
Proof.
  revert i. induction xs as [|y ys IH]; intros i; simpl; [by left|].
  destruct (strict_eq y x); [right; lia|].
  destruct (IH (i + 1)%Z); [by left | right; lia].
Qed.

Lemma indexOf_from_found i xs x :
  (0 <= i)%Z -> ((0 <=? indexOf_from i xs x)%Z = true <-> x ∈ xs).
Proof.
  revert i. induction xs as [|y ys IH]; intros i Hi; simpl.
  - split; [done | intros H; by apply elem_of_nil in H].
  - destruct (strict_eq y x) eqn:E.
    + apply strict_eq_true in E as ->. split; [intros _; left | intros _; lia].
    + rewrite IH by lia. rewrite elem_of_cons. split; [by right|].
      intros [->|H]; [|done].
      assert (strict_eq y y = true) by by apply strict_eq_true. congruence.
Qed.

Lemma indexOf_found xs x : (0 <=? indexOf xs x)%Z = true <-> x ∈ xs.
Proof. by apply indexOf_from_found. Qed.

Lemma reserved_indexOf k :
  (indexOf RESERVED_KEYWORDS (VString k) <? 0)%Z = false <-> reserved k.
Proof.
  assert ((indexOf RESERVED_KEYWORDS (VString k) <? 0)%Z
          = negb (0 <=? indexOf RESERVED_KEYWORDS (VString k))%Z) as ->.
  { destruct (Z.ltb_spec (indexOf RESERVED_KEYWORDS (VString k)) 0),
      (Z.leb_spec 0 (indexOf RESERVED_KEYWORDS (VString k))); simpl; lia. }
  rewrite Bool.negb_false_iff, indexOf_found.
  unfold reserved, RESERVED_KEYWORDS.
  rewrite !elem_of_cons, !elem_of_nil. naive_solver.
Qed.

(** ** [clone] terminates and only allocates *)

Lemma unvisited_insert (h0 : heap) (vis : gmap nat nat) l l' :
  l < length h0 -> vis !! l = None ->
  unvisited h0 (<[l := l']> vis) < unvisited h0 vis.
Proof.
  intros Hl Hvis. unfold unvisited. apply subset_size.
  rewrite dom_insert_L. apply not_elem_of_dom in Hvis.
  assert (l ∈ (set_seq 0 (length h0) : gset nat))
    by (apply elem_of_set_seq; lia).
  set_solver.
Qed.

Lemma unvisited_mono (h0 : heap) (vis vis' : gmap nat nat) :
  vis ⊆ vis' -> unvisited h0 vis' <= unvisited h0 vis.
Proof.
  intros Hsub. unfold unvisited. apply subseteq_size.
  apply subseteq_dom in Hsub. set_solver.
Qed.

Lemma extends_refl st : extends st st.
Proof. split; [done|]. exists []. by rewrite app_nil_r. Qed.

Lemma extends_trans st1 st2 st3 :
  extends st1 st2 -> extends st2 st3 -> extends st1 st3.
Proof.
  intros [H1 [k1 E1]] [H2 [k2 E2]]. split; [by etrans|].
  exists (k1 ++ k2). by rewrite E2, E1, app_assoc.
Qed.

Lemma clone_all_total (P : clone_state -> Prop)
    (f : value -> clone_state -> option (value * clone_state)) :
  (forall st st', P st -> extends st st' -> P st') ->
  (forall v st, P st -> exists v' st', f v st = Some (v', st') /\ extends st st') ->
  forall vs st, P st ->
    exists vs' st', clone_all f vs st = Some (vs', st')
                    /\ extends st st' /\ length vs' = length vs.
Proof.
  intros HP Hf vs. induction vs as [|v vs IH]; intros st Hst; simpl.
  - exists [], st. split; [done|]. split; [apply extends_refl | done].
  - destruct (Hf v st Hst) as (v' & st1 & -> & Hext1).
    destruct (IH st1 (HP _ _ Hst Hext1)) as (vs' & st2 & -> & Hext2 & Hlen).
    exists (v' :: vs'), st2. split; [done|].
    split; [by eapply extends_trans | simpl; by rewrite Hlen].
Qed.

Lemma clone_go_total n : forall (h0 : heap) v st,
  unvisited h0 st.1 <= n ->
  exists v' st', clone_go n h0 v st = Some (v', st') /\ extends st st'.
Proof.
  induction n as [|n IH]; intros h0 v st Hn;
    (destruct v as [| | | | | |l];
     try (eexists _, st; split; [reflexivity | apply extends_refl])); simpl;
    (destruct (st.1 !! l) as [l'|] eqn:Hvis;
     [eexists _, st; split; [reflexivity | apply extends_refl]|]);
    (destruct (h0 !! l) as [o|] eqn:Hl;
     [|eexists _, st; split; [reflexivity | apply extends_refl]]);
    apply lookup_lt_Some in Hl;
    pose proof (unvisited_insert h0 st.1 l (length st.2) Hl Hvis) as Hlt.
  - lia.
  - set (st1 := (<[l := length st.2]> st.1, st.2 ++ [rebuild o []])).
    destruct (clone_all_total (fun s => unvisited h0 s.1 <= n) (clone_go n h0))
      with (vs := children o) (st := st1) as (vs & st2 & -> & [Hsub [k Hk]] & _).
    + intros s s' Hs [Hss _]. pose proof (unvisited_mono h0 _ _ Hss). lia.
    + intros v s Hs. by apply IH.
    + simpl. lia.
    + eexists _, _. split; [reflexivity|]. split; simpl.
      * etrans; [|exact Hsub]. by apply insert_subseteq.
      * exists (rebuild o vs :: k). rewrite Hk. simpl.
        rewrite <- app_assoc. simpl.
        rewrite insert_app_r_alt by done. by rewrite Nat.sub_diag.
Qed.

Lemma clone_all_primitive n (h0 : heap) vs st :
  Forall primitive vs -> clone_all (clone_go n h0) vs st = Some (vs, st).
Proof.
  induction 1 as [|v vs Hv _ IH]; simpl; [done|].
  destruct v, n; simpl in *; try done; by rewrite IH.
Qed.

(** [_clone] never exhausts the stack, leaves every existing object as it
    is, and returns either its argument (a primitive, a function, a dangling
    reference) or the address of a new object of the same kind. *)
Lemma _clone_spec (h : heap) v :
  exists v' k, _clone v h = (Ret v', h ++ k)
    /\ match v with
       | VRef l =>
           match h !! l with
           | Some o =>
               v' = VRef (length h)
               /\ exists vs k', k = rebuild o vs :: k'
                    /\ length vs = length (children o)
                    /\ (Forall primitive (children o) ->
                        vs = children o /\ k' = [])
           | None => v' = v /\ k = []
           end
       | _ => v' = v /\ k = []
       end.
Proof.
  unfold _clone.
  destruct v as [| | | | | |l];
    try (eexists _, []; rewrite app_nil_r; destruct (length h); simpl; done).
  destruct (h !! l) as [o|] eqn:Hl.
  - pose proof (lookup_lt_Some _ _ _ Hl) as Hlt.
    destruct (length h) as [|n] eqn:Hlen; [lia|]. simpl.
    rewrite lookup_empty, Hl. rewrite Hlen.
    destruct (clone_all_total (fun s => unvisited h s.1 <= n) (clone_go n h))
      with (vs := children o) (st := (<[l := S n]> (∅ : gmap nat nat), h ++ [rebuild o []]))
      as (vs & st2 & Hc & [Hsub [k Hk]] & Hvs).
    + intros s s' Hs [Hss _]. pose proof (unvisited_mono h _ _ Hss). lia.
    + intros v s Hs. by apply clone_go_total.
    + simpl.
      assert (unvisited h (<[l := S n]> ∅) < unvisited h ∅)
        by (apply unvisited_insert; [lia | apply lookup_empty]).
      assert (unvisited h ∅ = length h) as Hu.
      { unfold unvisited. rewrite dom_empty_L, difference_empty_L.
        apply size_set_seq. }
      lia.
    + rewrite Hc. simpl. eexists _, (rebuild o vs :: k). split.
      * f_equal. rewrite Hk. simpl. rewrite <- app_assoc. simpl.
        rewrite insert_app_r_alt by lia.
        by replace (S n - length h) with 0 by lia.
      * split; [done|]. exists vs, k. split; [done|]. split; [done|].
        intros Hprim.
        rewrite clone_all_primitive in Hc by done.
        injection Hc as <- <-. simpl in Hk. split; [done|].
        apply (f_equal length) in Hk. rewrite !length_app in Hk.
        destruct k; [done | simpl in Hk; lia].
  - exists (VRef l), []. rewrite app_nil_r.
    destruct (length h); simpl; rewrite ?lookup_empty, Hl; done.
Qed.

(** ** Stepping through a computation *)

Lemma bind_get_heap {B} (k : list object -> M B) (h : heap) :
  bind get_heap k h = k h h.
Proof. reflexivity. Qed.

Lemma bind_ret_step {A B} (m : M A) (k : A -> M B) (h h' : heap) a :
  m h = (Ret a, h') -> bind m k h = k a h'.
Proof. intros H. unfold bind. by rewrite H. Qed.

Lemma bind_throw_step {A B} (m : M A) (k : A -> M B) (h h' : heap) e :
  m h = (Throw e, h') -> bind m k h = (Throw e, h').
Proof. intros H. unfold bind. by rewrite H. Qed.

(** ** Assignments and the adoption loop *)

Lemma getter_only_reserved c k : getter_only c k = true -> reserved k.
Proof.
  destruct c; simpl; try done. unfold reserved.
  rewrite Bool.orb_true_iff, !String.eqb_eq. intros [-> | ->]; set_solver.
Qed.

Lemma proto_setter_other c k : k ≠ "__proto__" -> proto_setter c k = false.
Proof.
  intros Hk. unfold proto_setter.
  destruct (String.eqb k "__proto__") eqn:E; [|done].
  by apply String.eqb_eq in E.
Qed.

Lemma set_prop_ok (h : heap) l c fs k v :
  h !! l = Some (OObject c fs) ->
  getter_only c k = false \/ is_Some (field k fs) ->
  k ≠ "__proto__" ->
  set_prop (VRef l) k v h = (Ret tt, <[l := OObject c (set_field k v fs)]> h).
Proof.
  intros Hl Hk Hp. unfold set_prop. rewrite Hl.
  destruct (field k fs) eqn:E; [done|].
  rewrite (proto_setter_other c k Hp).
  destruct Hk as [-> | [? ?]]; done.
Qed.

Lemma get_prop_insert_ne (h : heap) l l' o k :
  l ≠ l' -> get_prop (<[l := o]> h) (VRef l') k = get_prop h (VRef l') k.
Proof. intros Hne. unfold get_prop. by rewrite list_lookup_insert_ne. Qed.

Lemma for_each_cons {A} (x : A) xs body (h : heap) :
  for_each (x :: xs) body h
  = match body x h with
    | (Ret _, h') => for_each xs body h'
    | (Throw e, h') => (Throw e, h')
    end.
Proof. reflexivity. Qed.

Lemma adopt_reserved this user k (h : heap) :
  reserved k -> adopt this user k h = (Ret tt, h).
Proof.
  intros Hk. apply reserved_indexOf in Hk. unfold adopt. by rewrite Hk.
Qed.

Lemma adopt_other (h : heap) p c tfs user k :
  ~ reserved k ->
  k ≠ "__proto__" ->
  h !! p = Some (OObject c tfs) ->
  adopt (VRef p) user k h
  = (Ret tt, <[p := OObject c (set_field k (get_prop h user k) tfs)]> h).
Proof.
  intros Hk Hk' Hp. unfold adopt.
  destruct (indexOf RESERVED_KEYWORDS (VString k) <? 0)%Z eqn:Hres.
  - unfold bind, get_heap. apply set_prop_ok; [done | | done]. left.
    destruct (getter_only c k) eqn:G; [|done].
    by apply getter_only_reserved in G.
  - by apply reserved_indexOf in Hres.
Qed.

(** The adoption of an own key [__proto__] of the working record: whatever
    it does to the new object, it returns and leaves the own properties under
    every other name as they are. *)
Lemma adopt_proto (h : heap) p c tfs user :
  h !! p = Some (OObject c tfs) ->
  exists c' tfs',
    adopt (VRef p) user "__proto__" h = (Ret tt, <[p := OObject c' tfs']> h)
    /\ forall k, k ≠ "__proto__" -> field k tfs' = field k tfs.
Proof.
  intros Hp. unfold adopt.
  change (indexOf RESERVED_KEYWORDS (VString "__proto__") <? 0)%Z with true.
  cbv iota. rewrite bind_get_heap. unfold set_prop. rewrite Hp.
  assert (getter_only c "__proto__" = false) as Hg by (by destruct c).
  destruct (field "__proto__" tfs) eqn:E.
  - eexists _, _. split; [reflexivity|].
    intros k Hk. by apply field_set_field_ne.
  - rewrite Hg. destruct (proto_setter c "__proto__").
    + destruct (is_prototype _).
      * eexists _, _. split; [reflexivity | done].
      * exists c, tfs. split; [|done]. f_equal. symmetry. by apply list_insert_id.
    + eexists _, _. split; [reflexivity|].
      intros k Hk. by apply field_set_field_ne.
Qed.

Lemma adopt_loop p l cu fs keys : forall (h : heap) c tfs,
  h !! p = Some (OObject c tfs) ->
  h !! l = Some (OObject cu fs) ->
  l ≠ p ->
  exists c' tfs',
    for_each keys (adopt (VRef p) (VRef l)) h
    = (Ret tt, <[p := OObject c' tfs']> h)
    /\ (forall k, reserved k -> field k tfs' = field k tfs)
    /\ (forall k, ~ reserved k -> k ≠ "__proto__" ->
          field k tfs' = if decide (k ∈ keys)
                         then Some (get_prop h (VRef l) k)
                         else field k tfs)
    /\ ("__proto__" ∉ keys ->
        c' = c /\ field "__proto__" tfs' = field "__proto__" tfs).
Proof.
  induction keys as [|k1 keys IH]; intros h c tfs Hp Hl Hne.
  - exists c, tfs. split; [|split; [|split]].
    + simpl. unfold ret. f_equal. symmetry. by apply list_insert_id.
    + done.
    + intros k _ _. destruct (decide (k ∈ [])) as [H|]; [|done].
      by apply elem_of_nil in H.
    + done.
  - rewrite for_each_cons.
    pose proof (lookup_lt_Some _ _ _ Hp) as Hlt.
    destruct (decide (reserved k1)) as [Hk1|Hk1];
      [|destruct (decide (k1 = "__proto__")) as [->|Hk1']].
    + rewrite adopt_reserved by done.
      destruct (IH h c tfs Hp Hl Hne) as (c' & tfs' & -> & Hr & Hn & Hc).
      exists c', tfs'. split; [done|]. split; [done|]. split.
      * intros k Hk Hk'. rewrite Hn by done.
        destruct (decide (k ∈ keys)) as [Hin|Hin].
        -- rewrite decide_True; [done | by right].
        -- rewrite decide_False; [done|].
           rewrite elem_of_cons. intros [->|?]; done.
      * intros Hnin. apply Hc. intros ?. apply Hnin. by right.
    + destruct (adopt_proto h p c tfs (VRef l) Hp) as (c1 & tfs1 & -> & Hsame).
      set (h1 := <[p := OObject c1 tfs1]> h).
      destruct (IH h1 c1 tfs1) as (c' & tfs' & -> & Hr & Hn & Hc).
      * unfold h1. by apply list_lookup_insert_eq.
      * unfold h1. by rewrite list_lookup_insert_ne.
      * done.
      * exists c', tfs'. split; [|split; [|split]].
        -- unfold h1. by rewrite list_insert_insert_eq.
        -- intros k Hk. rewrite Hr by done. apply Hsame. by intros ->.
        -- intros k Hk Hk'. rewrite Hn by done.
           unfold h1. rewrite get_prop_insert_ne by done.
           destruct (decide (k ∈ keys)) as [Hin|Hin].
           ++ rewrite decide_True; [done | by right].
           ++ rewrite decide_False by (rewrite elem_of_cons; naive_solver).
              by apply Hsame.
        -- intros Hnin. destruct Hnin. left.
    + rewrite (adopt_other h p c tfs) by done.
      set (v1 := get_prop h (VRef l) k1).
      set (h1 := <[p := OObject c (set_field k1 v1 tfs)]> h).
      destruct (IH h1 c (set_field k1 v1 tfs)) as (c' & tfs' & -> & Hr & Hn & Hc).
      * unfold h1. by apply list_lookup_insert_eq.
      * unfold h1. by rewrite list_lookup_insert_ne.
      * done.
      * exists c', tfs'. split; [|split; [|split]].
        -- unfold h1. by rewrite list_insert_insert_eq.
        -- intros k Hk. rewrite Hr by done. apply field_set_field_ne.
           intros ->. done.
        -- intros k Hk Hk'. rewrite Hn by done.
           unfold h1. rewrite get_prop_insert_ne by done.
           destruct (decide (k ∈ keys)) as [Hin|Hin].
           ++ rewrite decide_True; [done | by right].
           ++ destruct (decide (k = k1)) as [->|Hkk].
              ** rewrite decide_True by left. apply field_set_field_eq.
              ** rewrite decide_False by (rewrite elem_of_cons; naive_solver).
                 by apply field_set_field_ne.
        -- intros Hnin.
           destruct Hc as [-> ->]; [intros ?; apply Hnin; by right|].
           split; [done|]. by apply field_set_field_ne.
Qed.

(** ** Validation and population *)

Lemma invalid_username_false v :
  invalid_username v = false <-> exists s, v = VString s /\ s ≠ "".
Proof.
  unfold invalid_username. split.
  - destruct v as [| | | |s| |]; simpl; try discriminate.
    intros H. exists s. split; [done|]. intros ->. simpl in H. discriminate.
  - intros (s & -> & Hs). simpl. destruct s; [done|]. simpl.
    apply Z.leb_gt. lia.
Qed.

Lemma instanceof_Array_true (h : heap) v :
  instanceof_Array h v = true <-> exists l vs, v = VRef l /\ h !! l = Some (OArray vs).
Proof.
  unfold instanceof_Array. split.
  - destruct v as [| | | | | |l]; try discriminate.
    destruct (h !! l) as [[vs|]|] eqn:E; try discriminate. eauto.
  - intros (l & vs & -> & ->). done.
Qed.

Lemma populate_invalid_username this user (h : heap) :
  invalid_username (get_prop h user "username") = true ->
  populate this user h = (Throw (Error MSG_USERNAME), h).
Proof. intros H. unfold populate, bind, get_heap. by rewrite H. Qed.

Lemma populate_invalid_roles this user (h : heap) :
  invalid_username (get_prop h user "username") = false ->
  instanceof_Array h (get_prop h user "roles") = false ->
  populate this user h = (Throw (Error MSG_ROLES_FIELD), h).
Proof. intros H1 H2. unfold populate, bind, get_heap. by rewrite H1, H2. Qed.

Lemma populate_ok (h : heap) p l cu fs u lr rs :
  h !! p = Some (OObject UserClass []) ->
  h !! l = Some (OObject cu fs) ->
  l ≠ p ->
  get_prop h (VRef l) "username" = VString u -> u ≠ "" ->
  get_prop h (VRef l) "roles" = VRef lr ->
  h !! lr = Some (OArray rs) ->
  exists c tfs rs' k,
    populate (VRef p) (VRef l) h
    = (Ret tt, <[p := OObject c tfs]> h ++ OArray rs' :: k)
    /\ field "_username" tfs = Some (VString u)
    /\ field "_roles" tfs = Some (VRef (length h))
    /\ (forall key, reserved key -> key ≠ "_username" -> key ≠ "_roles" ->
          field key tfs = None)
    /\ (forall key, ~ reserved key -> key ≠ "__proto__" ->
          field key tfs = field key fs)
    /\ ("__proto__" ∉ fs.*1 -> c = UserClass /\ field "__proto__" tfs = None)
    /\ length rs' = length rs
    /\ (Forall primitive rs -> rs' = rs /\ k = []).
Proof.
  intros Hp Hl Hne Hu Hu' Hr Hlr.
  pose proof (lookup_lt_Some _ _ _ Hp) as Hplt.
  assert (lr ≠ p) as Hlrp by (intros ->; congruence).
  assert (invalid_username (VString u) = false) as Hvu
    by (apply invalid_username_false; eauto).
  assert (instanceof_Array h (VRef lr) = true) as Hvr
    by (apply instanceof_Array_true; eauto).
  assert (own_keys h (VRef l) = fs.*1) as Hkeys
    by (unfold own_keys; by rewrite Hl).
  destruct (adopt_loop p l cu fs (fs.*1) h UserClass [] Hp Hl Hne)
    as (c & tfs1 & Hloop & Hres1 & Hoth1 & Hcls1).
  assert (forall k, k = "_username" \/ k = "_roles" -> getter_only c k = false)
    as Hgetter by (intros k [-> | ->]; by destruct c).
  set (h1 := <[p := OObject c tfs1]> h) in *.
  assert (h1 !! p = Some (OObject c tfs1)) as Hp1
    by (unfold h1; by apply list_lookup_insert_eq).
  set (tfs2 := set_field "_username" (VString u) tfs1).
  set (h2 := <[p := OObject c tfs2]> h1).
  assert (h2 = <[p := OObject c tfs2]> h) as Hh2
    by (unfold h2, h1; by rewrite list_insert_insert_eq).
  assert (length h2 = length h) as Hlen2 by (rewrite Hh2; apply length_insert).
  assert (h2 !! p = Some (OObject c tfs2)) as Hp2
    by (rewrite Hh2; by apply list_lookup_insert_eq).
  assert (h2 !! lr = Some (OArray rs)) as Hlr2
    by (rewrite Hh2; by rewrite list_lookup_insert_ne).
  destruct (_clone_spec h2 (VRef lr)) as (v' & k & Hclone & Hshape).
  rewrite Hlr2 in Hshape. destruct Hshape as (-> & vs & k' & -> & Hvs & Hprim).
  simpl in Hvs, Hprim, Hclone.
  unfold populate. rewrite bind_get_heap, Hu, Hr, Hvu, Hvr, Hkeys.
  cbn [negb].
  rewrite (bind_ret_step _ _ _ _ _ Hloop), bind_get_heap.
  replace (get_prop h1 (VRef l) "username") with (VString u)
    by (unfold h1; by rewrite get_prop_insert_ne).
  rewrite (bind_ret_step _ _ h1 h2 tt)
    by (apply (set_prop_ok h1 p c tfs1); auto).
  rewrite bind_get_heap.
  replace (get_prop h2 (VRef l) "roles") with (VRef lr)
    by (rewrite Hh2; by rewrite get_prop_insert_ne).
  rewrite (bind_ret_step _ _ _ _ _ Hclone).
  rewrite (set_prop_ok _ p c tfs2);
    [|rewrite lookup_app_l; [done|lia] | auto | done].
  exists c, (set_field "_roles" (VRef (length h2)) tfs2), vs, k'.
  split; [|split; [|split; [|split; [|split; [|split; [|split]]]]]].
  - f_equal. rewrite insert_app_l by lia. f_equal.
    rewrite Hh2. by rewrite list_insert_insert_eq.
  - rewrite field_set_field_ne by done. apply field_set_field_eq.
  - rewrite <- Hlen2. apply field_set_field_eq.
  - intros key Hk H1 H2. unfold tfs2. rewrite !field_set_field_ne by done.
    by rewrite Hres1.
  - intros key Hk Hk'. unfold tfs2.
    rewrite !field_set_field_ne by (intros <-; apply Hk; unfold reserved; set_solver).
    rewrite Hoth1 by done.
    destruct (decide (key ∈ fs.*1)) as [Hin|Hin].
    + destruct (field_keys_is_Some _ _ Hin) as [x Hx].
      unfold get_prop. by rewrite Hl, Hx.
    + symmetry. by apply field_None_keys.
  - intros Hnin. destruct (Hcls1 Hnin) as [-> Hf]. split; [done|].
    unfold tfs2. by rewrite !field_set_field_ne.
  - done.
  - done.
Qed.

(** ** The working record *)

Lemma not_plain_object_false (h : heap) v :
  not_plain_object h v = false ->
  exists l, v = VRef l /\ forall vs, h !! l ≠ Some (OArray vs).
Proof.
  unfold not_plain_object. rewrite !Bool.orb_false_iff.
  intros [[Ht Ha] Ho]. destruct v as [| | | | | |l]; try discriminate.
  exists l. split; [done|]. intros vs E. simpl in Ha. by rewrite E in Ha.
Qed.

Lemma not_plain_object_object (h : heap) l c fs :
  h !! l = Some (OObject c fs) -> not_plain_object h (VRef l) = false.
Proof. intros E. unfold not_plain_object. simpl. by rewrite E. Qed.

Lemma not_plain_object_app (h : heap) k v :
  not_plain_object h v = true -> not_plain_object (h ++ k) v = true.
Proof.
  unfold not_plain_object. destruct v as [| | | | | |l]; try done.
  simpl. rewrite !Bool.orb_false_r.
  destruct (h !! l) as [[vs|]|] eqn:E; try done.
  intros _. by rewrite (lookup_app_l_Some _ _ _ _ E).
Qed.

Lemma props_ok_app (h : heap) k v : props_ok h v -> props_ok (h ++ k) v.
Proof.
  intros [H | (l & fs & -> & E)]; [left; by apply not_plain_object_app|].
  right. exists l, fs. split; [done|]. by apply lookup_app_l_Some.
Qed.

Lemma from_parts_invalid_roles username roles props (h : heap) :
  instanceof_Array h roles = false ->
  from_parts username roles props h = (Throw (Error MSG_ROLES_ARG), h).
Proof. intros H. unfold from_parts. by rewrite bind_get_heap, H. Qed.

Lemma from_parts_default username roles props (h : heap) :
  instanceof_Array h roles = true ->
  not_plain_object h props = true ->
  from_parts username roles props h
  = (Ret (VRef (S (length h))),
     h ++ [OObject Plain [];
           OObject Plain [("username", username); ("roles", roles)]]).
Proof.
  intros Hr Hp. unfold from_parts. rewrite bind_get_heap, Hr, Hp. cbn [negb].
  rewrite (bind_ret_step _ _ h (h ++ [OObject Plain []]) (VRef (length h)))
    by reflexivity.
  destruct (_clone_spec (h ++ [OObject Plain []]) (VRef (length h)))
    as (v' & k & Hc & Hshape).
  rewrite list_lookup_middle in Hshape by done.
  destruct Hshape as (-> & vs & k' & -> & _ & Hprim).
  destruct Hprim as [-> ->]; [by constructor|]. simpl in Hc.
  rewrite (bind_ret_step _ _ _ _ _ Hc).
  set (h1 := h ++ [OObject Plain []]) in *.
  assert (length h1 = S (length h)) as Hlen
    by (unfold h1; rewrite length_app; simpl; lia).
  erewrite bind_ret_step; cycle 1.
  { apply (set_prop_ok _ (length h1) Plain []); [|by left | done].
    by apply list_lookup_middle. }
  erewrite bind_ret_step; cycle 1.
  { apply (set_prop_ok _ (length h1) Plain [("username", username)]); [|by left | done].
    rewrite insert_app_r_alt, Nat.sub_diag by done.
    by apply list_lookup_middle. }
  unfold ret. rewrite Hlen at 1. f_equal.
  rewrite !insert_app_r_alt, !Nat.sub_diag by done. simpl.
  unfold h1. by rewrite <- app_assoc.
Qed.

Lemma from_parts_record username roles l fs (h : heap) :
  instanceof_Array h roles = true ->
  h !! l = Some (OObject Plain fs) ->
  exists wfs k,
    from_parts username roles (VRef l) h
    = (Ret (VRef (length h)), h ++ OObject Plain wfs :: k)
    /\ field "username" wfs = Some username
    /\ field "roles" wfs = Some roles.
Proof.
  intros Hr Hl. unfold from_parts.
  rewrite bind_get_heap, Hr, (not_plain_object_object h l Plain fs) by done.
  cbn [negb].
  rewrite (bind_ret_step _ _ h h (VRef l)) by reflexivity.
  destruct (_clone_spec h (VRef l)) as (v' & k & Hc & Hshape).
  rewrite Hl in Hshape. destruct Hshape as (-> & vs & k' & -> & _ & _).
  rewrite (bind_ret_step _ _ _ _ _ Hc). simpl rebuild.
  set (wfs0 := zip fs.*1 vs).
  erewrite bind_ret_step; cycle 1.
  { apply (set_prop_ok _ (length h) Plain wfs0); [|by left | done].
    by apply list_lookup_middle. }
  erewrite bind_ret_step; cycle 1.
  { apply (set_prop_ok _ (length h) Plain (set_field "username" username wfs0));
      [|by left | done].
    rewrite insert_app_r_alt, Nat.sub_diag by done.
    by apply list_lookup_middle. }
  eexists _, k'. split.
  - unfold ret. f_equal.
    rewrite !insert_app_r_alt, !Nat.sub_diag by done. simpl. reflexivity.
  - split; [|apply field_set_field_eq].
    rewrite field_set_field_ne by done. apply field_set_field_eq.
Qed.

Lemma from_parts_ok username roles props (h : heap) :
  instanceof_Array h roles = true ->
  props_ok h props ->
  exists l' wfs k,
    from_parts username roles props h = (Ret (VRef l'), h ++ k)
    /\ length h <= l'
    /\ (h ++ k) !! l' = Some (OObject Plain wfs)
    /\ field "username" wfs = Some username
    /\ field "roles" wfs = Some roles
    /\ (not_plain_object h props = true ->
        wfs = [("username", username); ("roles", roles)]).
Proof.
  intros Hr [Hp | (l & fs & -> & Hl)].
  - rewrite from_parts_default by done.
    eexists (S (length h)), _, _. split; [reflexivity|].
    split; [lia|]. split.
    + rewrite lookup_app_r by lia.
      by replace (S (length h) - length h) with 1 by lia.
    + done.
  - destruct (from_parts_record username roles l fs h Hr Hl)
      as (wfs & k & -> & Hu & Hro).
    eexists (length h), wfs, _. split; [reflexivity|].
    split; [lia|]. split; [by apply list_lookup_middle|].
    split; [done|]. split; [done|].
    intros Hnp. by rewrite (not_plain_object_object h l Plain fs) in Hnp.
Qed.

(** ** The state after a successful construction *)

Lemma new_User_unfold user roles props (h : heap) :
  new_User user roles props h
  = match constructor (VRef (length h)) user roles props
            (h ++ [OObject UserClass []]) with
    | (Ret _, h') => (Ret (VRef (length h)), h')
    | (Throw e, h') => (Throw e, h')
    end.
Proof.
  unfold new_User, bind, alloc.
  by destruct (constructor _ _ _ _ _) as [[[]|e] h'].
Qed.

Lemma populate_new (h : heap) k0 l cu fs u lr rs :
  (h ++ OObject UserClass [] :: k0) !! l = Some (OObject cu fs) ->
  l ≠ length h ->
  get_prop (h ++ OObject UserClass [] :: k0) (VRef l) "username" = VString u ->
  u ≠ "" ->
  get_prop (h ++ OObject UserClass [] :: k0) (VRef l) "roles" = VRef lr ->
  (h ++ OObject UserClass [] :: k0) !! lr = Some (OArray rs) ->
  exists h' c tfs lr' rs',
    populate (VRef (length h)) (VRef l) (h ++ OObject UserClass [] :: k0)
    = (Ret tt, h')
    /\ principal_of h h' c u rs fs tfs lr' rs'.
Proof.
  intros Hl Hne Hu Hu' Hr Hlr.
  set (h1 := h ++ OObject UserClass [] :: k0) in *.
  assert (h1 !! length h = Some (OObject UserClass [])) as Hp
    by (by apply list_lookup_middle).
  destruct (populate_ok h1 (length h) l cu fs u lr rs)
    as (c & tfs & rs' & k & Heq & H1 & H2 & H3 & H4 & Hcls & H5 & H6); try done.
  exists (<[length h := OObject c tfs]> h1 ++ OArray rs' :: k),
    c, tfs, (length h1), rs'.
  split; [done|].
  assert (length h < length h1) as Hlen
    by (unfold h1; rewrite length_app; simpl; lia).
  split; try done.
  - intros l0 Hl0. rewrite lookup_app_l by (rewrite length_insert; lia).
    rewrite list_lookup_insert_ne by lia. unfold h1. by rewrite lookup_app_l.
  - rewrite lookup_app_l by (rewrite length_insert; lia).
    by apply list_lookup_insert_eq.
  - intros Hnin. by apply Hcls.
  - intros Hnin. by apply Hcls.
  - apply list_lookup_middle. by rewrite length_insert.
  - intros Hprim. by apply H6.
Qed.

Lemma populate_inv (h h' : heap) p user :
  h !! p = Some (OObject UserClass []) ->
  populate (VRef p) user h = (Ret tt, h') ->
  exists l c fs u lr rs,
    user = VRef l /\ h !! l = Some (OObject c fs) /\ l ≠ p
    /\ get_prop h (VRef l) "username" = VString u /\ u ≠ ""
    /\ get_prop h (VRef l) "roles" = VRef lr
    /\ h !! lr = Some (OArray rs).
Proof.
  intros Hp Hpop.
  destruct (invalid_username (get_prop h user "username")) eqn:Hu.
  { rewrite populate_invalid_username in Hpop by done. discriminate. }
  destruct (instanceof_Array h (get_prop h user "roles")) eqn:Hr; cycle 1.
  { rewrite populate_invalid_roles in Hpop by done. discriminate. }
  apply invalid_username_false in Hu as (u & Hu & Hne).
  apply instanceof_Array_true in Hr as (lr & rs & Hr & Hlr).
  destruct user as [| | | | | |l]; try discriminate.
  destruct (h !! l) as [[vs|c fs]|] eqn:Hl;
    try (unfold get_prop in Hu; rewrite Hl in Hu; discriminate).
  exists l, c, fs, u, lr, rs. repeat split; try done.
  intros ->. unfold get_prop in Hu. rewrite Hp in Hu. discriminate.
Qed.

Lemma get_prop_app (h : heap) k l c fs key :
  h !! l = Some (OObject c fs) ->
  get_prop (h ++ k) (VRef l) key = get_prop h (VRef l) key.
Proof.
  intros Hl. unfold get_prop. by rewrite (lookup_app_l_Some _ _ _ _ Hl), Hl.
Qed.

Lemma working_record_object (h : heap) l c fs roles props :
  h !! l = Some (OObject c fs) ->
  working_record (VRef l) roles props h = (Ret (VRef l), h).
Proof.
  intros Hl. unfold working_record. simpl.
  by rewrite bind_get_heap, (not_plain_object_object h l c fs).
Qed.

(** Construction from an object whose [username] and [roles] are valid. *)
Lemma new_User_object (h : heap) l c fs u lr rs roles props :
  h !! l = Some (OObject c fs) ->
  get_prop h (VRef l) "username" = VString u -> u ≠ "" ->
  get_prop h (VRef l) "roles" = VRef lr ->
  h !! lr = Some (OArray rs) ->
  exists h' c' tfs lr' rs',
    new_User (VRef l) roles props h = (Ret (VRef (length h)), h')
    /\ principal_of h h' c' u rs fs tfs lr' rs'.
Proof.
  intros Hl Hu Hne Hr Hlr. rewrite new_User_unfold. unfold constructor.
  pose proof (lookup_lt_Some _ _ _ Hl) as Hlt.
  erewrite bind_ret_step; cycle 1.
  { apply (working_record_object _ l c fs). by apply lookup_app_l_Some. }
  destruct (populate_new h [] l c fs u lr rs)
    as (h' & c' & tfs & lr' & rs' & -> & Hpo).
  - by apply lookup_app_l_Some.
  - lia.
  - by rewrite (get_prop_app h _ l c fs).
  - done.
  - by rewrite (get_prop_app h _ l c fs).
  - by apply lookup_app_l_Some.
  - by exists h', c', tfs, lr', rs'.
Qed.

(** ** Every successful construction *)

Lemma set_prop_frame (h0 : heap) k0 l key v r h' :
  length h0 <= l ->
  set_prop (VRef l) key v (h0 ++ k0) = (r, h') ->
  exists k1, h' = h0 ++ k1.
Proof.
  intros Hl. unfold set_prop.
  destruct ((h0 ++ k0) !! l) as [[vs|c fs]|]; [| |];
    repeat case_match; intros [= <- <-]; try by eexists.
  all: rewrite insert_app_r_alt by done; by eexists.
Qed.

Lemma insert_middle (h : heap) x y k :
  <[length h := x]> (h ++ y :: k) = h ++ x :: k.
Proof. by rewrite insert_app_r_alt, Nat.sub_diag. Qed.

Lemma set_prop_ret (h : heap) l c fs k v h' :
  h !! l = Some (OObject c fs) ->
  k ≠ "__proto__" ->
  set_prop (VRef l) k v h = (Ret tt, h') ->
  h' = <[l := OObject c (set_field k v fs)]> h.
Proof.
  intros Hl Hk. unfold set_prop. rewrite Hl, (proto_setter_other c k Hk).
  destruct (field k fs); [by intros [= <-]|].
  destruct (getter_only c k); [done | by intros [= <-]].
Qed.

Lemma set_field_keys k v fs x :
  x ∈ (set_field k v fs).*1 -> x = k \/ x ∈ fs.*1.
Proof.
  induction fs as [|[k' v'] fs IH]; simpl.
  - rewrite list_elem_of_singleton. auto.
  - destruct (String.eqb k' k) eqn:E; simpl; rewrite !elem_of_cons.
    + apply String.eqb_eq in E as ->. naive_solver.
    + naive_solver.
Qed.

(** What a working record of the positional form looks like: a new object
    whose [username] and [roles] are the arguments and whose other names are
    names of [props]. *)
Lemma from_parts_inv username roles props (h : heap) v h' :
  from_parts username roles props h = (Ret v, h') ->
  exists l k c wfs,
    v = VRef l /\ length h <= l /\ h' = h ++ k
    /\ h' !! l = Some (OObject c wfs)
    /\ field "roles" wfs = Some roles
    /\ (forall key, key ∈ wfs.*1 ->
          key = "username" \/ key = "roles" \/ key ∈ own_keys h props).
Proof.
  intros H.
  destruct (instanceof_Array h roles) eqn:Hr; cycle 1.
  { rewrite from_parts_invalid_roles in H by done. discriminate. }
  destruct (not_plain_object h props) eqn:Hp.
  { rewrite from_parts_default in H by done. injection H as <- <-.
    eexists (S (length h)), _, Plain, _. split; [done|]. split; [lia|].
    split; [done|]. split.
    - rewrite lookup_app_r by lia.
      by replace (S (length h) - length h) with 1 by lia.
    - split; [done|]. intros key. simpl. rewrite !elem_of_cons, elem_of_nil.
      naive_solver. }
  destruct (not_plain_object_false _ _ Hp) as (l0 & -> & Hna).
  unfold from_parts in H. rewrite bind_get_heap, Hr, Hp in H. cbn [negb] in H.
  rewrite (bind_ret_step _ _ h h (VRef l0)) in H by reflexivity.
  destruct (_clone_spec h (VRef l0)) as (v' & k & Hc & Hshape).
  rewrite (bind_ret_step _ _ _ _ _ Hc) in H.
  destruct (h !! l0) as [[vs0|c fs0]|] eqn:Hl0.
  - by destruct (Hna vs0).
  - destruct Hshape as (-> & vs & k' & -> & Hvs & _). simpl in *.
    unfold bind, ret in H.
    destruct (set_prop _ "username" _ _) as [[[]|e1] h1] eqn:E1; [|discriminate].
    destruct (set_prop _ "roles" _ _) as [[[]|e2] h2] eqn:E2; [|discriminate].
    injection H as <- <-.
    apply (set_prop_ret _ _ c (zip fs0.*1 vs)) in E1;
      [|by apply list_lookup_middle | done].
    subst h1. rewrite insert_middle in E2.
    apply (set_prop_ret _ _ c (set_field "username" username (zip fs0.*1 vs)))
      in E2; [|by apply list_lookup_middle | done].
    subst h2. rewrite insert_middle.
    eexists (length h), _, c, _. split; [done|]. split; [lia|].
    split; [done|]. split; [by apply list_lookup_middle|].
    split; [apply field_set_field_eq|].
    intros key Hkey.
    apply set_field_keys in Hkey as [-> | Hkey]; [auto|].
    apply set_field_keys in Hkey as [-> | Hkey]; [auto|].
    right. right. rewrite fst_zip in Hkey by (rewrite Hvs, !length_fmap; lia).
    unfold own_keys. by rewrite Hl0.
  - destruct Hshape as (-> & ->). rewrite app_nil_r in H.
    unfold bind, set_prop in H. rewrite Hl0 in H. discriminate.
Qed.

Lemma working_record_inv user roles props (h : heap) v h' :
  working_record user roles props h = (Ret v, h') -> exists k, h' = h ++ k.
Proof.
  unfold working_record. destruct (String.eqb (typeof user) "string").
  - intros H. apply from_parts_inv in H as (l & k & _ & _ & _ & _ & -> & _).
    by exists k.
  - rewrite bind_get_heap. destruct (not_plain_object h user); [discriminate|].
    intros [= <- <-]. exists []. by rewrite app_nil_r.
Qed.

Lemma own_keys_app_object (h : heap) c v key :
  key ∈ own_keys (h ++ [OObject c []]) v -> key ∈ own_keys h v.
Proof.
  destruct v as [| | | | | |l]; try done. simpl.
  destruct (decide (l < length h)) as [Hlt|Hge].
  - by rewrite lookup_app_l.
  - rewrite lookup_app_r by lia.
    destruct (l - length h) as [|[|n]]; simpl; intros H;
      by apply elem_of_nil in H.
Qed.

(** Construction from positional arguments. *)
Lemma new_User_parts (h : heap) u lr rs props :
  u ≠ "" ->
  h !! lr = Some (OArray rs) ->
  props_ok h props ->
  exists h' c wfs tfs lr' rs',
    new_User (VString u) (VRef lr) props h = (Ret (VRef (length h)), h')
    /\ principal_of h h' c u rs wfs tfs lr' rs'
    /\ field "username" wfs = Some (VString u)
    /\ field "roles" wfs = Some (VRef lr)
    /\ (not_plain_object h props = true ->
        wfs = [("username", VString u); ("roles", VRef lr)])
    /\ ("__proto__" ∉ own_keys h props -> "__proto__" ∉ wfs.*1).
Proof.
  intros Hne Hlr Hprops. rewrite new_User_unfold. unfold constructor.
  set (h1 := h ++ [OObject UserClass []]).
  assert (h1 !! lr = Some (OArray rs)) as Hlr1 by by apply lookup_app_l_Some.
  destruct (from_parts_ok (VString u) (VRef lr) props h1)
    as (l' & wfs & k & Hfp & Hl' & Hw & Hwu & Hwr & Hdef).
  { apply instanceof_Array_true. eauto. }
  { by apply props_ok_app. }
  assert ("__proto__" ∉ own_keys h props -> "__proto__" ∉ wfs.*1) as Hproto.
  { destruct (from_parts_inv _ _ _ _ _ _ Hfp)
      as (l1 & k1 & c1 & wfs1 & Hv & _ & _ & Hobj & _ & Hkeys).
    injection Hv as <-. rewrite Hw in Hobj. injection Hobj as <- <-.
    intros Hnp Hin. apply Hkeys in Hin as [? | [? | Hin]]; try done.
    by apply own_keys_app_object in Hin. }
  erewrite bind_ret_step; [|unfold working_record; simpl; exact Hfp].
  assert (length h1 = S (length h)) as Hlen1
    by (unfold h1; rewrite length_app; simpl; lia).
  assert (h1 ++ k = h ++ OObject UserClass [] :: k) as Hh
    by (unfold h1; by rewrite <- app_assoc).
  rewrite Hh in *.
  destruct (populate_new h k l' Plain wfs u lr rs)
    as (h' & c & tfs & lr' & rs' & -> & Hpo); try done.
  - lia.
  - unfold get_prop. by rewrite Hw, Hwu.
  - unfold get_prop. by rewrite Hw, Hwr.
  - rewrite <- Hh. by apply lookup_app_l_Some.
  - exists h', c, wfs, tfs, lr', rs'.
    split; [done|]. split; [done|]. split; [done|]. split; [done|].
    split; [|done].
    intros Hnp. apply Hdef. by apply not_plain_object_app.
Qed.

Lemma no_proto_key_own_keys (h : heap) user props :
  no_proto_key h user props ->
  "__proto__" ∉ own_keys h (supplied_record user props).
Proof.
  unfold no_proto_key, own_keys.
  repeat case_match; try done; intros _; apply not_elem_of_nil.
Qed.

(** Whatever the arguments, a construction that returns has built a
    principal at the first free address.  Its roles are those of the array
    the caller supplied, and it is an instance of the class when the supplied
    record has no own [__proto__]. *)
Lemma new_User_inv user roles props (h : heap) v h' :
  new_User user roles props h = (Ret v, h') ->
  v = VRef (length h)
  /\ exists c u rs wfs tfs lr' rs',
      principal_of h h' c u rs wfs tfs lr' rs'
      /\ ("__proto__" ∉ own_keys h (supplied_record user props) ->
          "__proto__" ∉ wfs.*1)
      /\ (forall lr rs0, caller_roles h user roles = VRef lr ->
            h !! lr = Some (OArray rs0) -> rs = rs0).
Proof.
  rewrite new_User_unfold. unfold constructor.
  set (h1 := h ++ [OObject UserClass []]).
  destruct (working_record user roles props h1) as [[w|e] hw] eqn:Hw; cycle 1.
  { rewrite (bind_throw_step _ _ _ _ _ Hw). discriminate. }
  rewrite (bind_ret_step _ _ _ _ _ Hw).
  destruct (populate (VRef (length h)) w hw) as [[[]|e] hp] eqn:Hp;
    [|discriminate].
  intros [= <- <-]. split; [done|].
  destruct (working_record_inv _ _ _ _ _ _ Hw) as [k Hhw].
  assert (hw = h ++ OObject UserClass [] :: k) as Hhw'
    by (rewrite Hhw; unfold h1; by rewrite <- app_assoc).
  rewrite Hhw' in Hp.
  destruct (populate_inv _ _ (length h) w (list_lookup_middle _ _ _ _ eq_refl) Hp)
    as (l & cu & fs & u & lr & rs & -> & Hl & Hne & Hu & Hu' & Hr & Hlr).
  destruct (populate_new h k l cu fs u lr rs)
    as (h' & c & tfs & lr' & rs' & Heq & Hpo); try done.
  rewrite Heq in Hp. injection Hp as <-.
  exists c, u, rs, fs, tfs, lr', rs'. split; [done|].
  rewrite <- Hhw' in Hl, Hr, Hlr.
  unfold working_record in Hw. unfold caller_roles, supplied_record.
  destruct (String.eqb (typeof user) "string") eqn:Ht.
  - apply from_parts_inv in Hw
      as (l1 & k1 & c1 & wfs1 & Hv & Hl1 & Hk1 & Hobj & Hroles & Hkeys).
    injection Hv as <-.
    rewrite Hl in Hobj. injection Hobj as <- <-. split.
    + intros Hnp Hin. apply Hkeys in Hin as [? | [? | Hin]]; try done.
      by apply own_keys_app_object in Hin.
    + intros lr0 rs0 -> Hlr0.
      unfold get_prop in Hr. rewrite Hl, Hroles in Hr. injection Hr as <-.
      rewrite Hhw' in Hlr. rewrite (lookup_app_l_Some _ _ _ _ Hlr0) in Hlr.
      by injection Hlr.
  - rewrite bind_get_heap in Hw.
    destruct (not_plain_object h1 user); [discriminate|].
    injection Hw as Huser Hheap. subst user. rewrite <- Hheap in Hl, Hr, Hlr.
    assert (l < length h) as Hlt.
    { apply lookup_lt_Some in Hl. unfold h1 in Hl.
      rewrite length_app in Hl. simpl in Hl. lia. }
    assert (h !! l = Some (OObject cu fs)) as Hl0
      by (unfold h1 in Hl; by rewrite lookup_app_l in Hl).
    split.
    + intros Hnp. unfold own_keys in Hnp. by rewrite Hl0 in Hnp.
    + intros lr0 rs0 Hcr Hlr0.
      unfold h1 in Hr. rewrite (get_prop_app h _ l cu fs) in Hr by done.
      rewrite Hcr in Hr. injection Hr as <-.
      unfold h1 in Hlr. rewrite (lookup_app_l_Some _ _ _ _ Hlr0) in Hlr.
      by injection Hlr.
Qed.

(** ** Failing constructions *)

Lemma instanceof_Array_app_object (h : heap) c fs v :
  instanceof_Array (h ++ [OObject c fs]) v = instanceof_Array h v.
Proof.
  destruct v as [| | | | | |l]; try done. simpl.
  destruct (decide (l < length h)) as [Hlt|Hge].
  - by rewrite lookup_app_l.
  - rewrite lookup_app_r by lia.
    rewrite (proj2 (lookup_ge_None h l)) by lia.
    destruct (l - length h) as [|[|n]]; done.
Qed.

Lemma new_User_invalid_data user roles props (h : heap) :
  String.eqb (typeof user) "string" = false ->
  not_plain_object (h ++ [OObject UserClass []]) user = true ->
  new_User user roles props h
  = (Throw (Error MSG_USER_DATA), h ++ [OObject UserClass []]).
Proof.
  intros Ht Hn. rewrite new_User_unfold. unfold constructor.
  erewrite bind_throw_step; [done|].
  unfold working_record. by rewrite Ht, bind_get_heap, Hn.
Qed.

Lemma new_User_object_invalid_username (h : heap) l c fs roles props :
  h !! l = Some (OObject c fs) ->
  invalid_username (get_prop h (VRef l) "username") = true ->
  new_User (VRef l) roles props h
  = (Throw (Error MSG_USERNAME), h ++ [OObject UserClass []]).
Proof.
  intros Hl Hu. rewrite new_User_unfold. unfold constructor.
  erewrite bind_ret_step; cycle 1.
  { apply (working_record_object _ l c fs). by apply lookup_app_l_Some. }
  rewrite populate_invalid_username; [done|].
  by rewrite (get_prop_app h _ l c fs).
Qed.

Lemma new_User_object_invalid_roles (h : heap) l c fs roles props :
  h !! l = Some (OObject c fs) ->
  invalid_username (get_prop h (VRef l) "username") = false ->
  instanceof_Array h (get_prop h (VRef l) "roles") = false ->
  new_User (VRef l) roles props h
  = (Throw (Error MSG_ROLES_FIELD), h ++ [OObject UserClass []]).
Proof.
  intros Hl Hu Hr. rewrite new_User_unfold. unfold constructor.
  erewrite bind_ret_step; cycle 1.
  { apply (working_record_object _ l c fs). by apply lookup_app_l_Some. }
  rewrite populate_invalid_roles; [done | |].
  - by rewrite (get_prop_app h _ l c fs).
  - by rewrite (get_prop_app h _ l c fs), instanceof_Array_app_object.
Qed.

Lemma new_User_parts_invalid_roles (h : heap) s roles props :
  instanceof_Array h roles = false ->
  new_User (VString s) roles props h
  = (Throw (Error MSG_ROLES_ARG), h ++ [OObject UserClass []]).
Proof.
  intros Hr. rewrite new_User_unfold. unfold constructor.
  erewrite bind_throw_step; [done|].
  unfold working_record. simpl. apply from_parts_invalid_roles.
  by rewrite instanceof_Array_app_object.
Qed.

Lemma new_User_parts_empty_username (h : heap) lr rs props :
  h !! lr = Some (OArray rs) ->
  props_ok h props ->
  exists k, new_User (VString "") (VRef lr) props h
            = (Throw (Error MSG_USERNAME), h ++ k).
Proof.
  intros Hlr Hprops. rewrite new_User_unfold. unfold constructor.
  destruct (from_parts_ok (VString "") (VRef lr) props (h ++ [OObject UserClass []]))
    as (l' & wfs & k & Hfp & Hl' & Hw & Hwu & Hwr & _).
  { apply instanceof_Array_true. exists lr, rs.
    split; [done|]. by apply lookup_app_l_Some. }
  { by apply props_ok_app. }
  erewrite bind_ret_step; [|unfold working_record; simpl; exact Hfp].
  rewrite populate_invalid_username.
  - rewrite <- app_assoc. by eexists.
  - unfold get_prop. by rewrite Hw, Hwu.
Qed.


(** ** The role query *)

Lemma hasRole_loop_spec (h : heap) p mine qs :
  internal_roles h p mine ->
  exists b, hasRole_loop (VRef p) qs h = (Ret b, h)
            /\ (b = true <-> exists x, x ∈ qs /\ x ∈ mine).
Proof.
  intros (lr & Hg & Hlr). induction qs as [|q qs (b & IH & Hb)].
  - exists false. split; [done|]. split; [done|].
    intros (x & Hx & _). by apply elem_of_nil in Hx.
  - cbn [hasRole_loop]. rewrite bind_get_heap, Hg.
    unfold instanceof_Array, elems. rewrite Hlr.
    destruct (0 <=? indexOf mine q)%Z eqn:Hi.
    + exists true. split; [done|]. split; [|done]. intros _.
      exists q. split; [left | by apply indexOf_found].
    + exists b. split; [done|]. rewrite Hb. split.
      * intros (x & Hx & Hm). exists x. split; [by right | done].
      * intros (x & Hx & Hm). apply elem_of_cons in Hx as [->|Hx]; [|eauto].
        apply indexOf_found in Hm. congruence.
Qed.

Lemma internal_roles_app (h : heap) k p mine :
  internal_roles h p mine -> internal_roles (h ++ k) p mine.
Proof.
  intros (lr & Hg & Hlr). exists lr. split; [|by apply lookup_app_l_Some].
  unfold get_prop in *. destruct (h !! p) as [o|] eqn:Hp; [|done].
  by rewrite (lookup_app_l_Some _ _ _ _ Hp).
Qed.

Lemma hasRole_spec (h : heap) p mine q :
  internal_roles h p mine ->
  exists b k, hasRole (VRef p) q h = (Ret b, h ++ k)
              /\ (b = true <-> overlaps h mine q).
Proof.
  intros Hint. unfold hasRole.
  destruct q as [| | | |s| |l]; simpl typeof; cbn [String.eqb Ascii.eqb Bool.eqb];
    try (rewrite (bind_ret_step _ _ h h _) by reflexivity;
         rewrite bind_get_heap; simpl;
         exists false, []; rewrite app_nil_r; split; [done|];
         split; [done|]; intros [(s & ? & _) | (l & qs & x & ? & _)]; done).
  - rewrite (bind_ret_step _ _ h (h ++ [OArray [VString s]]) (VRef (length h)))
      by reflexivity.
    rewrite bind_get_heap. simpl. rewrite list_lookup_middle by done.
    destruct (hasRole_loop_spec (h ++ [OArray [VString s]]) p mine [VString s])
      as (b & -> & Hb); [by apply internal_roles_app|].
    exists b, [OArray [VString s]]. split; [done|]. rewrite Hb. split.
    + intros (x & Hx & Hm). apply list_elem_of_singleton in Hx as ->.
      left. eauto.
    + intros [(s' & [= <-] & Hm) | (l & qs & x & ? & _)]; [|done].
      exists (VString s). split; [left | done].
  - rewrite (bind_ret_step _ _ h h _) by reflexivity.
    rewrite bind_get_heap. simpl.
    destruct (h !! l) as [[qs|c fs]|] eqn:Hl.
    + destruct (hasRole_loop_spec h p mine qs Hint) as (b & -> & Hb).
      exists b, []. rewrite app_nil_r. split; [done|]. rewrite Hb. split.
      * intros (x & Hx & Hm). right. exists l, qs, x. eauto.
      * intros [(s & ? & _) | (l' & qs' & x & [= <-] & Hl' & Hx & Hm)]; [done|].
        rewrite Hl in Hl'. injection Hl' as <-. eauto.
    + exists false, []. rewrite app_nil_r. split; [done|]. split; [done|].
      intros [(s & ? & _) | (l' & qs' & x & [= <-] & Hl' & _)]; [done|].
      congruence.
    + exists false, []. rewrite app_nil_r. split; [done|]. split; [done|].
      intros [(s & ? & _) | (l' & qs' & x & [= <-] & Hl' & _)]; [done|].
      congruence.
Qed.

(** ** Reading a constructed principal *)

Section Reads.
Context {h h' : list object} {c : class} {u : string} {rs : list value}
        {wfs tfs : list (string * value)} {lr' : nat} {rs' : list value}.
Hypothesis Hpo : principal_of h h' c u rs wfs tfs lr' rs'.

Lemma po_get_own key v :
  field key tfs = Some v -> get_prop h' (VRef (length h)) key = v.
Proof.
  intros E. unfold get_prop. by rewrite (po_this _ _ _ _ _ _ _ _ _ Hpo), E.
Qed.


Lemma po_internal_roles_ref :
  get_prop h' (VRef (length h)) "_roles" = VRef lr'.
Proof. apply po_get_own, Hpo. Qed.

Lemma po_internal_elems :
  elems h' (get_prop h' (VRef (length h)) "_roles") = rs'.
Proof.
  rewrite po_internal_roles_ref. unfold elems.
  by rewrite (po_array _ _ _ _ _ _ _ _ _ Hpo).
Qed.

Lemma po_internal : internal_roles h' (length h) rs'.
Proof.
  exists lr'. split; [apply po_internal_roles_ref | apply Hpo].
Qed.

(** The accessors and the method are those of the class when the working
    record had no own [__proto__]. *)
Hypothesis Hnp : "__proto__" ∉ wfs.*1.

Lemma po_instance : h' !! length h = Some (OObject UserClass tfs).
Proof.
  rewrite (po_this _ _ _ _ _ _ _ _ _ Hpo).
  by rewrite (po_class _ _ _ _ _ _ _ _ _ Hpo Hnp).
Qed.

Lemma po_read_username : read_username h' (VRef (length h)) = VString u.
Proof.
  unfold read_username, get_prop. rewrite po_instance.
  rewrite (po_reserved _ _ _ _ _ _ _ _ _ Hpo) by (unfold reserved; set_solver).
  simpl. by rewrite (po_username _ _ _ _ _ _ _ _ _ Hpo).
Qed.

Lemma po_read_roles : read_roles h' (VRef (length h)) = VRef lr'.
Proof.
  unfold read_roles, get_prop. rewrite po_instance.
  rewrite (po_reserved _ _ _ _ _ _ _ _ _ Hpo) by (unfold reserved; set_solver).
  simpl. by rewrite (po_roles _ _ _ _ _ _ _ _ _ Hpo).
Qed.

Lemma po_read_hasRole :
  get_prop h' (VRef (length h)) "hasRole" = hasRole_method.
Proof.
  unfold get_prop. rewrite po_instance.
  by rewrite (po_reserved _ _ _ _ _ _ _ _ _ Hpo) by (unfold reserved; set_solver).
Qed.

Lemma po_own_extra key :
  ~ reserved key -> field key tfs = field key wfs.
Proof.
  intros Hk. destruct (decide (key = "__proto__")) as [->|Hne].
  - rewrite (po_no_proto _ _ _ _ _ _ _ _ _ Hpo Hnp).
    symmetry. by apply field_None_keys.
  - by apply (po_extras _ _ _ _ _ _ _ _ _ Hpo).
Qed.


Lemma po_elems : elems h' (read_roles h' (VRef (length h))) = rs'.
Proof.
  rewrite po_read_roles. unfold elems.
  by rewrite (po_array _ _ _ _ _ _ _ _ _ Hpo).
Qed.

Lemma po_own_keys key :
  key ∈ own_keys h' (VRef (length h))
  <-> (key ∈ wfs.*1 /\ ~ reserved key) \/ key = "_username" \/ key = "_roles".
Proof.
  unfold own_keys. rewrite (po_this _ _ _ _ _ _ _ _ _ Hpo).
  assert (key ∈ tfs.*1 <-> is_Some (field key tfs)) as ->.
  { split; [apply field_keys_is_Some|]. intros [v Hv]. by eapply field_Some_keys. }
  destruct (decide (key = "_username")) as [->|H1].
  { rewrite (po_username _ _ _ _ _ _ _ _ _ Hpo). split; [auto | eauto]. }
  destruct (decide (key = "_roles")) as [->|H2].
  { rewrite (po_roles _ _ _ _ _ _ _ _ _ Hpo). split; [auto | eauto]. }
  destruct (decide (reserved key)) as [Hres|Hres].
  - rewrite (po_reserved _ _ _ _ _ _ _ _ _ Hpo) by done. split.
    + by intros [? ?].
    + intros [[_ ?] | [? | ?]]; done.
  - rewrite po_own_extra by done. split.
    + intros [v Hv]. left. split; [by eapply field_Some_keys | done].
    + intros [[Hin _] | [? | ?]]; [by apply field_keys_is_Some | done | done].
Qed.
End Reads.

(** * The claims *)

(** C1. For every constructed Principal and every query, the method
    [hasRole] returns without an error; it returns [true] exactly when the
    query is a string that is an element of the role list of the Principal,
    the internal [_roles], or an array one of whose elements is (elements
    compared with [===]).  In particular the answer is [false] when the
    Principal has no roles, when the query is an empty array, when the query
    array is disjoint from the roles, and when the query is neither a string
    nor an array.  When the input has no own [__proto__], the member
    [hasRole] of the Principal is this method and the [roles] accessor
    reports this list. *)
Theorem hasRole_membership user roles props (h : list object) p h1 :
  new_User user roles props h = (Ret p, h1) ->
  (no_proto_key h user props ->
     get_prop h1 p "hasRole" = hasRole_method
     /\ read_roles h1 p = get_prop h1 p "_roles")
  /\ forall q, exists b h2,
    hasRole p q h1 = (Ret b, h2)
    /\ (b = true <-> overlaps h1 (elems h1 (get_prop h1 p "_roles")) q)
    /\ (elems h1 (get_prop h1 p "_roles") = [] -> b = false)
    /\ (forall l, q = VRef l -> h1 !! l = Some (OArray []) -> b = false)
    /\ (forall l qs, q = VRef l -> h1 !! l = Some (OArray qs) ->
        (forall x, x ∈ qs -> x ∉ elems h1 (get_prop h1 p "_roles")) ->
        b = false)
    /\ ((forall s, q ≠ VString s) -> instanceof_Array h1 q = false -> b = false).
Proof.
  intros Hnew.
  apply new_User_inv in Hnew
    as (-> & c & u & rs & wfs & tfs & lr' & rs' & Hpo & Hnp & _).
  split.
  { intros Hproto. specialize (Hnp (no_proto_key_own_keys _ _ _ Hproto)).
    split; [apply (po_read_hasRole Hpo Hnp)|].
    by rewrite (po_read_roles Hpo Hnp), (po_internal_roles_ref Hpo). }
  intros q. rewrite (po_internal_elems Hpo).
  destruct (hasRole_spec h1 (length h) rs' q (po_internal Hpo))
    as (b & k & Heq & Hb).
  exists b, (h1 ++ k). split; [done|]. split; [done|].
  assert (forall P : Prop, (overlaps h1 rs' q -> P -> False) -> P -> b = false)
    as Hfalse.
  { intros P HP HPs. destruct b; [|done]. exfalso.
    apply (HP (proj1 Hb eq_refl) HPs). }
  repeat split.
  - apply (Hfalse (rs' = [])).
    intros [(s & _ & Hm) | (l & qs & x & _ & _ & _ & Hm)] ->;
      by apply elem_of_nil in Hm.
  - intros l -> Hl. revert Hl. apply Hfalse.
    intros [(s & ? & _) | (l' & qs & x & [= <-] & Hl' & Hx & _)] Hl; [done|].
    rewrite Hl in Hl'. injection Hl' as <-. by apply elem_of_nil in Hx.
  - intros l qs -> Hl Hdis. apply (Hfalse True); [|done].
    intros [(s & ? & _) | (l' & qs' & x & [= <-] & Hl' & Hx & Hm)] _; [done|].
    rewrite Hl in Hl'. injection Hl' as <-. by apply (Hdis x).
  - intros Hs. apply Hfalse.
    intros [(s & -> & _) | (l' & qs' & x & -> & Hl' & _)] Hi.
    + by apply (Hs s).
    + simpl in Hi. by rewrite Hl' in Hi.
Qed.

Lemma hasRole_membership_witness :
  new_User (VString "bob") (VRef 0) VUndefined sample_heap
  = (Ret (VRef 4), sample_bob.2)
  /\ read_roles sample_bob.2 (VRef 4) = get_prop sample_bob.2 (VRef 4) "_roles"
  /\ exists b h2,
    hasRole (VRef 4) (VString "admin") sample_bob.2 = (Ret b, h2)
    /\ (b = true <->
        overlaps sample_bob.2
          (elems sample_bob.2 (get_prop sample_bob.2 (VRef 4) "_roles"))
          (VString "admin")).
Proof.
  assert (no_proto_key sample_heap (VString "bob") VUndefined) as Hk
    by (apply (bool_decide_unpack _); vm_compute; exact I).
  assert (new_User (VString "bob") (VRef 0) VUndefined sample_heap
          = (Ret (VRef 4), sample_bob.2)) as H by (vm_compute; reflexivity).
  split; [exact H|].
  destruct (hasRole_membership _ _ _ _ _ _ H) as [Hacc Hq].
  split; [exact (proj2 (Hacc Hk))|].
  destruct (Hq (VString "admin")) as (b & h2 & Heq & Hb & _).
  exists b, h2. split; [exact Heq | exact Hb].
Defined.




(** C6. The roles are copied at construction, in either form and whatever
    the input: the internal [_roles] of the Principal is a new array, not the
    one the caller supplied, with as many elements, and with the very
    elements when they are strings or other primitives.  When the caller
    later changes the array it supplied in any way, it sees the change, and
    the Principal keeps the roles that were supplied: its internal array is
    as it was and [hasRole] answers for every role name as before.  When the
    input has no own [__proto__], the array that the [roles] accessor
    reports, before and after the change, is this internal array. *)
Theorem roles_defensive_copy user roles props (h : list object) p h1 lr rs vs :
  new_User user roles props h = (Ret p, h1) ->
  caller_roles h user roles = VRef lr ->
  h !! lr = Some (OArray rs) ->
  exists lr' rs',
    get_prop h1 p "_roles" = VRef lr'
    /\ lr' ≠ lr /\ length h < lr'
    /\ h1 !! lr' = Some (OArray rs')
    /\ length rs' = length rs
    /\ (Forall primitive rs -> rs' = rs)
    /\ h1 !! lr = Some (OArray rs)
    /\ (no_proto_key h user props -> read_roles h1 p = VRef lr')
    /\ exists h2,
        array_overwrite (VRef lr) vs h1 = (Ret tt, h2)
        /\ h2 !! lr = Some (OArray vs)
        /\ get_prop h2 p "_roles" = VRef lr'
        /\ h2 !! lr' = Some (OArray rs')
        /\ (no_proto_key h user props -> read_roles h2 p = VRef lr')
        /\ (forall s, (hasRole p (VString s) h2).1
                      = (hasRole p (VString s) h1).1)
        /\ (Forall primitive rs ->
            forall s, (hasRole p (VString s) h2).1 = Ret true
                      <-> VString s ∈ rs).
Proof.
  intros Hnew Hcaller Hlr.
  apply new_User_inv in Hnew
    as (-> & c & u & rs0 & wfs & tfs & lr' & rs' & Hpo & Hnp & Hrs).
  specialize (Hrs lr rs Hcaller Hlr). subst rs0.
  pose proof (lookup_lt_Some _ _ _ Hlr) as Hlt.
  pose proof (po_frame _ _ _ _ _ _ _ _ _ Hpo lr Hlt) as Hlr1. rewrite Hlr in Hlr1.
  pose proof (po_fresh _ _ _ _ _ _ _ _ _ Hpo) as Hfresh.
  pose proof (po_array _ _ _ _ _ _ _ _ _ Hpo) as Harr.
  pose proof (po_length _ _ _ _ _ _ _ _ _ Hpo) as Hlen.
  pose proof (po_copy _ _ _ _ _ _ _ _ _ Hpo) as Hcopy.
  set (h2 := <[lr := OArray vs]> h1).
  assert (forall key, get_prop h2 (VRef (length h)) key
                      = get_prop h1 (VRef (length h)) key) as Hget
    by (intros key; apply get_prop_insert_ne; lia).
  assert (h2 !! lr' = Some (OArray rs')) as Harr2
    by (unfold h2; rewrite list_lookup_insert_ne by lia; done).
  exists lr', rs'.
  split; [apply (po_internal_roles_ref Hpo)|].
  split; [lia|]. split; [done|]. split; [done|]. split; [done|].
  split; [done|]. split; [done|].
  split.
  { intros Hproto. apply (po_read_roles Hpo).
    by apply Hnp, no_proto_key_own_keys. }
  exists h2. split; [unfold array_overwrite; by rewrite Hlr1|].
  split; [apply list_lookup_insert_eq; by eapply lookup_lt_Some|].
  split; [rewrite Hget; apply (po_internal_roles_ref Hpo)|].
  split; [done|].
  split.
  { intros Hproto. unfold read_roles. rewrite Hget. apply (po_read_roles Hpo).
    by apply Hnp, no_proto_key_own_keys. }
  assert (forall hh s, overlaps hh rs' (VString s) <-> VString s ∈ rs') as Hov.
  { intros hh s. split.
    - by intros [(s' & [= <-] & Hm) | (l & qs & x & ? & _)].
    - intros Hm. left. eauto. }
  split.
  - intros s.
    destruct (hasRole_spec h2 (length h) rs' (VString s)) as (b2 & k2 & -> & Hb2).
    { exists lr'. by rewrite Hget, (po_internal_roles_ref Hpo). }
    destruct (hasRole_spec h1 (length h) rs' (VString s) (po_internal Hpo))
      as (b1 & k1 & -> & Hb1).
    simpl. f_equal.
    rewrite Hov in Hb1, Hb2. rewrite <- Hb1 in Hb2.
    destruct b1, b2; try done; [apply Hb2 | symmetry; apply Hb2]; done.
  - intros Hprim s. rewrite <- (Hcopy Hprim).
    destruct (hasRole_spec h2 (length h) rs' (VString s)) as (b2 & k2 & -> & Hb2).
    { exists lr'. by rewrite Hget, (po_internal_roles_ref Hpo). }
    simpl. rewrite <- (Hov h2 s), <- Hb2. split; congruence.
Qed.

Lemma roles_defensive_copy_witness :
  new_User (VRef 1) VUndefined VUndefined sample_heap
  = (Ret (VRef 4), sample_foobar.2)
  /\ exists lr' h2,
    read_roles sample_foobar.2 (VRef 4) = VRef lr'
    /\ array_overwrite (VRef 0) [VString "root"] sample_foobar.2 = (Ret tt, h2)
    /\ h2 !! 0 = Some (OArray [VString "root"])
    /\ read_roles h2 (VRef 4) = VRef lr'
    /\ h2 !! lr' = Some (OArray [VString "user"; VString "admin"]).
Proof.
  assert (no_proto_key sample_heap (VRef 1) VUndefined) as Hk
    by (apply (bool_decide_unpack _); vm_compute; exact I).
  assert (new_User (VRef 1) VUndefined VUndefined sample_heap
          = (Ret (VRef 4), sample_foobar.2)) as H by (vm_compute; reflexivity).
  split; [exact H|].
  destruct (roles_defensive_copy _ _ _ _ _ _ 0
              [VString "user"; VString "admin"] [VString "root"] H)
    as (lr' & rs' & _ & _ & _ & _ & _ & Hc & _ & Hr1 & h2 & Ho & Hl & _ & Ha
        & Hr2 & _);
    [reflexivity | reflexivity |].
  exists lr', h2. split; [exact (Hr1 Hk)|]. split; [exact Ho|].
  split; [exact Hl|]. split; [exact (Hr2 Hk)|].
  rewrite <- Hc; [exact Ha|]. repeat constructor.
Defined.

Lemma not_a_record_not_plain (h : heap) k v :
  not_a_record h v -> not_plain_object (h ++ k) v = true.
Proof.
  intros Hn. unfold not_plain_object.
  destruct v as [| | | |s| |l]; simpl; try done;
    try by rewrite Bool.orb_true_r.
  destruct Hn as [vs Hl]. by rewrite (lookup_app_l_Some _ _ _ _ Hl).
Qed.

(** C4. A first argument that is neither a string nor an object that is not
    an array (a number, a boolean, [null], an absent argument, a function, an
    array) makes the construction fail with the error on argument 1. *)
Theorem invalid_user_data (h : list object) user roles props :
  (forall s, user ≠ VString s) ->
  not_a_record h user ->
  (new_User user roles props h).1
  = Throw (Error "Invalid user data specified (arg #1). Must be a string or object.").
Proof.
  intros Hs Hn. rewrite new_User_invalid_data; [done | |].
  - destruct user; try done. by destruct (Hs s).
  - by apply not_a_record_not_plain.
Qed.

Lemma invalid_user_data_witness :
  (new_User (VRef 0) VUndefined VUndefined sample_heap).1
  = Throw (Error MSG_USER_DATA)
  /\ (new_User (VNumber 0) VUndefined VUndefined sample_heap).1
     = Throw (Error MSG_USER_DATA)
  /\ (new_User VNull VUndefined VUndefined sample_heap).1
     = Throw (Error MSG_USER_DATA).
Proof.
  split; [|split]; apply invalid_user_data; simpl; try done.
  eexists. reflexivity.
Defined.



(** C7. In the positional form a [props] argument that is absent, [null], an
    array or not an object raises no error: with a valid username and valid
    roles the construction returns, the Principal has the given username and
    a copy of the given roles, its own properties are [_username] and
    [_roles] and nothing else (no extra attribute), and the outcome is the
    one of the call without [props]. *)
Theorem malformed_props_ignored (h : list object) u lr rs props :
  u ≠ "" ->
  h !! lr = Some (OArray rs) ->
  not_a_record h props ->
  exists h1,
    new_User (VString u) (VRef lr) props h = (Ret (VRef (length h)), h1)
    /\ read_username h1 (VRef (length h)) = VString u
    /\ length (elems h1 (read_roles h1 (VRef (length h)))) = length rs
    /\ (Forall primitive rs -> elems h1 (read_roles h1 (VRef (length h))) = rs)
    /\ (forall key, key ∈ own_keys h1 (VRef (length h))
                    <-> key = "_username" \/ key = "_roles")
    /\ new_User (VString u) (VRef lr) props h
       = new_User (VString u) (VRef lr) VUndefined h.
Proof.
  intros Hne Hlr Hprops.
  assert (not_plain_object h props = true) as Hnp.
  { rewrite <- (app_nil_r h). by apply not_a_record_not_plain. }
  destruct (new_User_parts h u lr rs props Hne Hlr (or_introl Hnp))
    as (h1 & c & wfs & tfs & lr' & rs' & Heq & Hpo & _ & _ & Hwfs & _).
  specialize (Hwfs Hnp).
  assert ("__proto__" ∉ wfs.*1) as Hproto.
  { rewrite Hwfs. simpl. rewrite !not_elem_of_cons. repeat split; try done.
    apply not_elem_of_nil. }
  exists h1. split; [done|].
  split; [apply (po_read_username Hpo Hproto)|].
  rewrite (po_elems Hpo Hproto).
  split; [apply Hpo|]. split; [apply Hpo|]. split.
  - intros key. rewrite (po_own_keys Hpo Hproto). split; [|auto].
    intros [[Hin Hres] | Hkey]; [|done]. destruct Hres.
    rewrite Hwfs in Hin. simpl in Hin.
    rewrite !elem_of_cons, elem_of_nil in Hin. unfold reserved.
    destruct Hin as [-> | [-> | []]]; set_solver.
  - rewrite !new_User_unfold. unfold constructor, working_record. simpl.
    assert (instanceof_Array (h ++ [OObject UserClass []]) (VRef lr) = true) as Hi
      by (apply instanceof_Array_true; exists lr, rs; split; [done|];
          by apply lookup_app_l_Some).
    rewrite !(bind_ret_step _ _ _ _ _ (from_parts_default _ _ _ _ Hi
                (not_plain_object_app _ _ _ Hnp))).
    by rewrite !(bind_ret_step _ _ _ _ _ (from_parts_default _ _ VUndefined _ Hi
                eq_refl)).
Qed.

Lemma malformed_props_ignored_witness :
  exists h1,
    new_User (VString "bob") (VRef 0) (VRef 0) sample_heap = (Ret (VRef 4), h1)
    /\ read_username h1 (VRef 4) = VString "bob"
    /\ elems h1 (read_roles h1 (VRef 4)) = [VString "user"; VString "admin"].
Proof.
  destruct (malformed_props_ignored sample_heap "bob" 0
              [VString "user"; VString "admin"] (VRef 0))
    as (h1 & Heq & Hu & _ & Hr & _).
  - done.
  - reflexivity.
  - eexists. reflexivity.
  - exists h1. split; [exact Heq|]. split; [exact Hu|].
    apply Hr. repeat constructor.
Defined.

Lemma Forall_primitive_strings (rs : list string) :
  Forall primitive (VString <$> rs).
Proof. induction rs; constructor; done. Qed.

(** C8. Round trip.  For a non-empty string [u] and a sequence of strings
    [rs], the construction from a record with these as [username] and [roles]
    and the construction from the positional arguments both return, and the
    accessors give back [u] and a sequence with the elements of [rs], in
    order and with duplicates.  The record, and the [props] of the positional
    form, have no own property named [__proto__]. *)
Theorem construct_roundtrip (h : list object) u (rs : list string) lr :
  u ≠ "" ->
  h !! lr = Some (OArray (VString <$> rs)) ->
  (forall l fs roles props,
      h !! l = Some (OObject Plain fs) ->
      "__proto__" ∉ fs.*1 ->
      field "username" fs = Some (VString u) ->
      field "roles" fs = Some (VRef lr) ->
      exists h1,
        new_User (VRef l) roles props h = (Ret (VRef (length h)), h1)
        /\ read_username h1 (VRef (length h)) = VString u
        /\ elems h1 (read_roles h1 (VRef (length h))) = VString <$> rs)
  /\ (forall props,
      props_ok h props ->
      "__proto__" ∉ own_keys h props ->
      exists h1,
        new_User (VString u) (VRef lr) props h = (Ret (VRef (length h)), h1)
        /\ read_username h1 (VRef (length h)) = VString u
        /\ elems h1 (read_roles h1 (VRef (length h))) = VString <$> rs).
Proof.
  intros Hne Hlr. split.
  - intros l fs roles props Hl Hproto Hu Hr.
    destruct (new_User_object h l Plain fs u lr (VString <$> rs) roles props)
      as (h1 & c & tfs & lr' & rs' & Heq & Hpo); try done.
    + unfold get_prop. by rewrite Hl, Hu.
    + unfold get_prop. by rewrite Hl, Hr.
    + exists h1. split; [done|]. split; [apply (po_read_username Hpo Hproto)|].
      rewrite (po_elems Hpo Hproto). apply Hpo, Forall_primitive_strings.
  - intros props Hprops Hproto.
    destruct (new_User_parts h u lr (VString <$> rs) props Hne Hlr Hprops)
      as (h1 & c & wfs & tfs & lr' & rs' & Heq & Hpo & _ & _ & _ & Hnp).
    specialize (Hnp Hproto).
    exists h1. split; [done|]. split; [apply (po_read_username Hpo Hnp)|].
    rewrite (po_elems Hpo Hnp). apply Hpo, Forall_primitive_strings.
Qed.

Lemma construct_roundtrip_witness :
  (exists h1,
      new_User (VRef 1) VUndefined VUndefined sample_heap = (Ret (VRef 4), h1)
      /\ read_username h1 (VRef 4) = VString "foobar"
      /\ elems h1 (read_roles h1 (VRef 4)) = [VString "user"; VString "admin"])
  /\ (exists h1,
      new_User (VString "foobar") (VRef 0) VUndefined sample_heap
      = (Ret (VRef 4), h1)
      /\ read_username h1 (VRef 4) = VString "foobar"
      /\ elems h1 (read_roles h1 (VRef 4)) = [VString "user"; VString "admin"]).
Proof.
  destruct (construct_roundtrip sample_heap "foobar" ["user"; "admin"] 0)
    as [HA HB]; [done | reflexivity |].
  split.
  - eapply (HA 1); [reflexivity | | reflexivity | reflexivity].
    apply (bool_decide_unpack _). vm_compute. exact I.
  - apply HB; [left; reflexivity|]. vm_compute. apply not_elem_of_nil.
Defined.

(** C9. In the positional form the roles argument is checked before the
    username: with a string as first argument, the empty string included, a
    second argument that is not an array makes the construction fail with the
    error on argument 2; an empty first argument with an array as second
    argument makes it fail with the username error. *)
Theorem positional_roles_checked_first (h : list object) s roles props :
  ((forall l vs, roles = VRef l -> h !! l ≠ Some (OArray vs)) ->
   (new_User (VString s) roles props h).1
   = Throw (Error "Invalid roles specified (arg #2)"))
  /\ (forall lr rs,
      roles = VRef lr -> h !! lr = Some (OArray rs) -> props_ok h props ->
      (new_User (VString "") roles props h).1
      = Throw (Error "User data does not define a valid username (user.username)")).
Proof.
  split.
  - intros Hr. rewrite new_User_parts_invalid_roles; [done|].
    destruct (instanceof_Array h roles) eqn:E; [|done].
    apply instanceof_Array_true in E as (l & vs & -> & Hl).
    by destruct (Hr l vs).
  - intros lr rs -> Hlr Hprops.
    by destruct (new_User_parts_empty_username h lr rs props Hlr Hprops) as [k ->].
Qed.

Lemma positional_roles_checked_first_witness :
  (new_User (VString "") (VNumber 7) VUndefined sample_heap).1
  = Throw (Error MSG_ROLES_ARG)
  /\ (new_User (VString "bob") (VRef 1) VUndefined sample_heap).1
     = Throw (Error MSG_ROLES_ARG)
  /\ (new_User (VString "") (VRef 0) (VRef 3) sample_heap).1
     = Throw (Error MSG_USERNAME).
Proof.
  split; [|split].
  - apply (positional_roles_checked_first sample_heap "" (VNumber 7)). done.
  - apply (positional_roles_checked_first sample_heap "bob" (VRef 1)).
    intros l vs [= <-]. done.
  - eapply (positional_roles_checked_first sample_heap "" (VRef 0)).
    + reflexivity.
    + reflexivity.
    + right. eexists _, _. split; reflexivity.
Defined.

(** C3 fails: with the user of [sample_bob], which has [_username] as an
    own property, as the [props] of the positional form, the construction
    does not return.  The copy of [props] is again an instance of the class,
    and the assignment of [username] to it is an assignment to a property
    that has a getter and no setter. *)
Lemma reserved_names_not_always_protected : ~ reserved_names_always_protected.
Proof.
  intros H.
  destruct (H sample_bob.2 (VString "eve") (VRef 0) (VRef 4) "_username"
              (VString "bob") "eve" 0)
    as (h1 & Heq & _).
  - unfold reserved. set_solver.
  - eexists 4, _, _. split; [reflexivity|]. split; reflexivity.
  - split; [done|]. split; [by eexists|]. split; reflexivity.
  - vm_compute in Heq. discriminate.
Qed.





(** * The cases of the test suite, run on the model *)

Example suite_record :
  let h := sample_foobar.2 in
  sample_foobar.1 = Ret (VRef 4)
  /\ read_username h (VRef 4) = VString "foobar"
  /\ elems h (read_roles h (VRef 4)) = [VString "user"; VString "admin"]
  /\ get_prop h (VRef 4) "foo" = VString "bar"
  /\ get_prop h (VRef 4) "abc" = VNumber 123
  /\ get_prop h (VRef 4) "hasRole" = hasRole_method.
Proof. vm_compute. repeat split. Qed.

Example suite_parts :
  let h := sample_bob.2 in
  sample_bob.1 = Ret (VRef 4)
  /\ read_username h (VRef 4) = VString "bob"
  /\ elems h (read_roles h (VRef 4)) = [VString "user"; VString "admin"]
  /\ (hasRole (VRef 4) (VString "user") h).1 = Ret true
  /\ (hasRole (VRef 4) (VString "bad") h).1 = Ret false
  /\ (hasRole (VRef 4) (VRef 0) h).1 = Ret true
  /\ (hasRole (VRef 4) (VNumber 3) h).1 = Ret false
  /\ (hasRole (VRef 4) VNull h).1 = Ret false.
Proof. vm_compute. repeat split. Qed.

Example suite_props :
  let h := (new_User (VString "bob") (VRef 0) (VRef 3) sample_heap).2 in
  get_prop h (VRef 4) "foo" = VString "bar"
  /\ get_prop h (VRef 4) "hasRole" = hasRole_method.
Proof. vm_compute. repeat split. Qed.

Example suite_errors :
  (new_User (VString "foobar") (VNumber 1) VUndefined sample_heap).1
  = Throw (Error MSG_ROLES_ARG)
  /\ (new_User (VRef 0) VUndefined VUndefined sample_heap).1
     = Throw (Error MSG_USER_DATA)
  /\ (new_User (VRef 2) VUndefined VUndefined sample_heap).1
     = Throw (Error MSG_USERNAME)
  /\ (new_User (VRef 3) VUndefined VUndefined sample_heap).1
     = Throw (Error MSG_USERNAME).
Proof. vm_compute. repeat split. Qed.

(** [clone] on a circular structure: the copy has the shape of the source
    and shares nothing with it. *)
Example clone_cycle :
  _clone (VRef 0)
    [OObject Plain [("a", VRef 1); ("n", VNumber 3)]; OArray [VRef 0; VRef 1]]
  = (Ret (VRef 2),
     [OObject Plain [("a", VRef 1); ("n", VNumber 3)]; OArray [VRef 0; VRef 1];
      OObject Plain [("a", VRef 3); ("n", VNumber 3)]; OArray [VRef 2; VRef 3]]).
Proof. vm_compute. reflexivity. Qed.

(** * Further properties of the class *)

(** ** Where [clone] puts its copies *)






(** ** Extra attributes in the positional form *)




(** ** What a construction leaves behind *)

Lemma from_parts_frame username roles props (h : list object) r h' :
  from_parts username roles props h = (r, h') -> exists k, h' = h ++ k.
Proof.
  intros H.
  destruct (instanceof_Array h roles) eqn:Hr; cycle 1.
  { rewrite from_parts_invalid_roles in H by done. injection H as <- <-.
    exists []. by rewrite app_nil_r. }
  destruct (not_plain_object h props) eqn:Hp.
  { rewrite from_parts_default in H by done. injection H as <- <-. by eexists. }
  destruct (not_plain_object_false _ _ Hp) as (l0 & -> & Hna).
  unfold from_parts in H. rewrite bind_get_heap, Hr, Hp in H. cbn [negb] in H.
  rewrite (bind_ret_step _ _ h h (VRef l0)) in H by reflexivity.
  destruct (_clone_spec h (VRef l0)) as (v' & k & Hc & Hshape).
  rewrite (bind_ret_step _ _ _ _ _ Hc) in H.
  destruct (h !! l0) as [o|] eqn:Hl0.
  - destruct Hshape as (-> & _).
    unfold bind, ret in H.
    destruct (set_prop _ "username" _ _) as [[[]|e1] h1] eqn:E1.
    + apply set_prop_frame in E1 as [k1 ->]; [|done].
      destruct (set_prop _ "roles" _ _) as [[[]|e2] h2] eqn:E2;
        apply set_prop_frame in E2 as [k2 ->]; try done;
        injection H as <- <-; by eexists.
    + apply set_prop_frame in E1 as [k1 ->]; [|done].
      injection H as <- <-. by eexists.
  - destruct Hshape as (-> & ->). rewrite app_nil_r in H.
    unfold bind, set_prop in H. rewrite Hl0 in H. injection H as <- <-.
    exists []. by rewrite app_nil_r.
Qed.

Lemma working_record_frame user roles props (h : list object) r h' :
  working_record user roles props h = (r, h') -> exists k, h' = h ++ k.
Proof.
  unfold working_record. destruct (String.eqb (typeof user) "string").
  - apply from_parts_frame.
  - rewrite bind_get_heap. destruct (not_plain_object h user);
      intros [= <- <-]; exists []; by rewrite app_nil_r.
Qed.

Lemma populate_valid_shape (h : list object) p user :
  h !! p = Some (OObject UserClass []) ->
  invalid_username (get_prop h user "username") = false ->
  instanceof_Array h (get_prop h user "roles") = true ->
  exists l c fs u lr rs,
    user = VRef l /\ h !! l = Some (OObject c fs) /\ l ≠ p
    /\ get_prop h (VRef l) "username" = VString u /\ u ≠ ""
    /\ get_prop h (VRef l) "roles" = VRef lr
    /\ h !! lr = Some (OArray rs).
Proof.
  intros Hp Hu Hr.
  apply invalid_username_false in Hu as (u & Hu & Hne).
  apply instanceof_Array_true in Hr as (lr & rs & Hr & Hlr).
  destruct user as [| | | | | |l]; try discriminate.
  destruct (h !! l) as [[vs|c fs]|] eqn:Hl;
    try (unfold get_prop in Hu; rewrite Hl in Hu; discriminate).
  exists l, c, fs, u, lr, rs. repeat split; try done.
  intros ->. unfold get_prop in Hu. rewrite Hp in Hu. discriminate.
Qed.

(** The outcomes of [populate] on a new object: one of the two validation
    errors with the heap as it was, or a principal. *)
Lemma populate_cases (h : list object) k0 user r h' :
  populate (VRef (length h)) user (h ++ OObject UserClass [] :: k0) = (r, h') ->
  (h' = h ++ OObject UserClass [] :: k0
   /\ (r = Throw (Error MSG_USERNAME) \/ r = Throw (Error MSG_ROLES_FIELD)))
  \/ (r = Ret tt
      /\ exists c u rs wfs tfs lr' rs', principal_of h h' c u rs wfs tfs lr' rs').
Proof.
  intros H. set (h1 := h ++ OObject UserClass [] :: k0) in *.
  destruct (invalid_username (get_prop h1 user "username")) eqn:Hu.
  { rewrite populate_invalid_username in H by done.
    injection H as <- <-. left. eauto. }
  destruct (instanceof_Array h1 (get_prop h1 user "roles")) eqn:Hr; cycle 1.
  { rewrite populate_invalid_roles in H by done.
    injection H as <- <-. left. eauto. }
  destruct (populate_valid_shape h1 (length h) user
              (list_lookup_middle _ _ _ _ eq_refl) Hu Hr)
    as (l & c & fs & u & lr & rs & -> & Hl & Hne & Hu1 & Hu' & Hr1 & Hlr).
  destruct (populate_new h k0 l c fs u lr rs)
    as (h2 & c' & tfs & lr' & rs' & Heq & Hpo); try done.
  fold h1 in Heq. rewrite Heq in H. injection H as <- <-. right. eauto 12.
Qed.

(** X3. A construction never changes an object that existed before it,
    whatever its arguments and whether it returns or throws: the caller's
    record, [props] and roles array are as they were. *)
Theorem construction_preserves_objects user roles props (h : list object) r h1 :
  new_User user roles props h = (r, h1) ->
  forall l o, h !! l = Some o -> h1 !! l = Some o.
Proof.
  rewrite new_User_unfold. unfold constructor. intros H l o Hl.
  pose proof (lookup_lt_Some _ _ _ Hl) as Hlt.
  destruct (working_record user roles props (h ++ [OObject UserClass []]))
    as [[w|e] hw] eqn:Hw.
  - rewrite (bind_ret_step _ _ _ _ _ Hw) in H.
    apply working_record_frame in Hw as [k ->].
    rewrite <- app_assoc in H. simpl in H.
    destruct (populate (VRef (length h)) w (h ++ OObject UserClass [] :: k))
      as [r' h'] eqn:Hp.
    assert (h1 = h') as -> by (destruct r' as [[]|]; by injection H).
    destruct (populate_cases _ _ _ _ _ Hp)
      as [[-> _] | [_ (c & u & rs & wfs & tfs & lr' & rs' & Hpo)]].
    + by apply lookup_app_l_Some.
    + by rewrite (po_frame _ _ _ _ _ _ _ _ _ Hpo).
  - rewrite (bind_throw_step _ _ _ _ _ Hw) in H. injection H as <- <-.
    apply working_record_frame in Hw as [k ->].
    rewrite <- app_assoc. by apply lookup_app_l_Some.
Qed.

Lemma construction_preserves_objects_witness :
  sample_foobar.2 !! 1 = sample_heap !! 1
  /\ (new_User (VString "") (VRef 0) (VRef 3) sample_heap).2 !! 3
     = sample_heap !! 3.
Proof.
  split.
  - apply (construction_preserves_objects (VRef 1) VUndefined VUndefined
             sample_heap sample_foobar.1 sample_foobar.2);
      [vm_compute; reflexivity | reflexivity].
  - eapply (construction_preserves_objects (VString "") (VRef 0) (VRef 3)
              sample_heap); [|reflexivity].
    apply surjective_pairing.
Defined.



(** ** The roles field and the possible outcomes *)

Lemma get_prop_plain (h : list object) l fs key :
  h !! l = Some (OObject Plain fs) ->
  get_prop h (VRef l) key
  = match field key fs with Some v => v | None => VUndefined end.
Proof. intros Hl. unfold get_prop. rewrite Hl. by destruct (field key fs). Qed.

Lemma invalid_roles_field_spec (h : list object) l fs :
  h !! l = Some (OObject Plain fs) ->
  instanceof_Array h (get_prop h (VRef l) "roles") = false
  <-> invalid_roles_field h fs.
Proof.
  intros Hl. rewrite (get_prop_plain h l fs) by done.
  unfold invalid_roles_field, instanceof_Array.
  destruct (field "roles" fs) as [[| | | | | |lr]|]; try done.
  destruct (h !! lr) as [[vs|c ofs]|]; split; try done.
  intros H. by destruct (H vs).
Qed.

(** X1. In the object form the [roles] field is checked after the username:
    the construction fails with the roles-field error exactly when the
    username is a non-empty string and the [roles] field is absent or is not
    an array. *)
Theorem roles_field_validation (h : list object) l fs roles props :
  h !! l = Some (OObject Plain fs) ->
  (new_User (VRef l) roles props h).1
  = Throw (Error "User data does not define valid roles (user.roles)")
  <-> (exists u, field "username" fs = Some (VString u) /\ u ≠ "")
      /\ invalid_roles_field h fs.
Proof.
  intros Hl.
  pose proof (get_prop_plain h l fs "username" Hl) as Hget.
  split.
  - intros H.
    destruct (invalid_username (get_prop h (VRef l) "username")) eqn:Hu.
    { rewrite (new_User_object_invalid_username h l Plain fs) in H by done.
      discriminate. }
    apply invalid_username_false in Hu as (u & Hu & Hne).
    assert (exists u, field "username" fs = Some (VString u) /\ u ≠ "") as Hfield.
    { exists u. split; [|done]. rewrite Hget in Hu.
      destruct (field "username" fs); congruence. }
    split; [done|]. destruct Hfield as (u0 & Hu0 & Hne0).
    assert (get_prop h (VRef l) "username" = VString u0) as Hu1
      by (by rewrite Hget, Hu0).
    apply (invalid_roles_field_spec h l fs Hl).
    destruct (instanceof_Array h (get_prop h (VRef l) "roles")) eqn:Hr; [|done].
    apply instanceof_Array_true in Hr as (lr & rs & Hr & Hlr).
    destruct (new_User_object h l Plain fs u0 lr rs roles props)
      as (h' & c' & tfs & lr' & rs' & Heq & _); try done.
    rewrite Heq in H. discriminate.
  - intros [(u & Hu & Hne) Hr].
    rewrite (new_User_object_invalid_roles h l Plain fs); try done.
    + apply invalid_username_false. exists u. by rewrite Hget, Hu.
    + by apply (invalid_roles_field_spec h l fs Hl).
Qed.

Lemma roles_field_validation_witness :
  (new_User (VRef 1) VUndefined VUndefined
     [OArray []; OObject Plain [("username", VString "bob"); ("roles", VNumber 1)]]).1
  = Throw (Error MSG_ROLES_FIELD).
Proof.
  apply (roles_field_validation _ 1
           [("username", VString "bob"); ("roles", VNumber 1)]);
    [reflexivity|].
  split; [by exists "bob" | exact I].
Defined.

(** ** More on the role query *)

Lemma overlaps_string (h : list object) mine s :
  overlaps h mine (VString s) <-> VString s ∈ mine.
Proof.
  split.
  - by intros [(s' & [= <-] & Hm) | (l & qs & x & ? & _)].
  - intros Hm. left. eauto.
Qed.

(** X5. A query with an array of role names holds exactly when the query
    with one of these names holds: [hasRole([a, b, ...])] is the disjunction
    of [hasRole(a)], [hasRole(b)], ... *)
Theorem hasRole_any_of user roles props (h : list object) p h1 l ss :
  new_User user roles props h = (Ret p, h1) ->
  h1 !! l = Some (OArray (VString <$> ss)) ->
  exists b,
    (hasRole p (VRef l) h1).1 = Ret b
    /\ (b = true <->
        exists s, s ∈ ss /\ (hasRole p (VString s) h1).1 = Ret true).
Proof.
  intros Hnew Hl.
  apply new_User_inv in Hnew
    as (-> & c & u & rs & wfs & tfs & lr' & rs' & Hpo & _).
  pose proof (po_internal Hpo) as Hint.
  destruct (hasRole_spec h1 (length h) rs' (VRef l) Hint) as (b & k & Heq & Hb).
  exists b. rewrite Heq. split; [done|]. rewrite Hb. split.
  - intros [(s & ? & _) | (l' & qs & x & [= <-] & Hl' & Hx & Hm)]; [done|].
    rewrite Hl in Hl'. injection Hl' as <-.
    apply list_elem_of_fmap in Hx as (s & -> & Hs).
    exists s. split; [done|].
    destruct (hasRole_spec h1 (length h) rs' (VString s) Hint)
      as (bs & ks & -> & Hbs).
    simpl. f_equal. apply Hbs. by apply overlaps_string.
  - intros (s & Hs & Hq).
    destruct (hasRole_spec h1 (length h) rs' (VString s) Hint)
      as (bs & ks & Heqs & Hbs).
    rewrite Heqs in Hq. simpl in Hq. injection Hq as ->.
    right. exists l, (VString <$> ss), (VString s).
    split; [done|]. split; [done|].
    split; [by apply list_elem_of_fmap_2|].
    apply (overlaps_string h1). by apply Hbs.
Qed.

Lemma hasRole_any_of_witness :
  exists b,
    (hasRole (VRef 4) (VRef 0) sample_bob.2).1 = Ret b
    /\ (b = true <->
        exists s, s ∈ ["user"; "admin"]
                  /\ (hasRole (VRef 4) (VString s) sample_bob.2).1 = Ret true).
Proof.
  apply (hasRole_any_of (VString "bob") (VRef 0) VUndefined sample_heap
           (VRef 4) sample_bob.2 0 ["user"; "admin"]);
    [vm_compute; reflexivity | reflexivity].
Defined.

Lemma overlaps_app (h : list object) k mine q :
  allocated h q -> overlaps (h ++ k) mine q <-> overlaps h mine q.
Proof.
  intros Hq. unfold overlaps. split.
  - intros [? | (l & qs & x & -> & Hl & Hx & Hm)]; [by left|].
    right. exists l, qs, x. simpl in Hq. by rewrite lookup_app_l in Hl.
  - intros [? | (l & qs & x & -> & Hl & Hx & Hm)]; [by left|].
    right. exists l, qs, x. split; [done|].
    split; [by apply lookup_app_l_Some | done].
Qed.

(** X6. A query changes nothing: [hasRole] leaves every object as it is (at
    most it allocates the array it wraps a string in), so after it the
    username, the roles and the answer to every query are as before. *)
Theorem hasRole_is_pure user roles props (h : list object) p h1 q :
  new_User user roles props h = (Ret p, h1) ->
  exists b k,
    hasRole p q h1 = (Ret b, h1 ++ k)
    /\ read_username (h1 ++ k) p = read_username h1 p
    /\ read_roles (h1 ++ k) p = read_roles h1 p
    /\ elems (h1 ++ k) (read_roles (h1 ++ k) p) = elems h1 (read_roles h1 p)
    /\ forall q', allocated h1 q' ->
         (hasRole p q' (h1 ++ k)).1 = (hasRole p q' h1).1.
Proof.
  intros Hnew.
  apply new_User_inv in Hnew
    as (-> & c & u & rs & wfs & tfs & lr' & rs' & Hpo & _).
  pose proof (po_internal Hpo) as Hint.
  pose proof (po_this _ _ _ _ _ _ _ _ _ Hpo) as Hthis.
  pose proof (po_array _ _ _ _ _ _ _ _ _ Hpo) as Harr.
  destruct (hasRole_spec h1 (length h) rs' q Hint) as (b & k & Heq & _).
  exists b, k. split; [done|].
  assert (forall key, get_prop (h1 ++ k) (VRef (length h)) key
                      = get_prop h1 (VRef (length h)) key) as Hget
    by (intros key; by apply (get_prop_app h1 k _ c tfs)).
  unfold read_username, read_roles. rewrite !Hget.
  split; [done|]. split; [done|]. split.
  { unfold get_prop. rewrite Hthis.
    rewrite (po_reserved _ _ _ _ _ _ _ _ _ Hpo "roles")
      by (try done; unfold reserved; set_solver).
    destruct c; simpl; [done | | done].
    rewrite (po_roles _ _ _ _ _ _ _ _ _ Hpo).
    unfold elems. by rewrite (lookup_app_l_Some _ _ _ _ Harr), Harr. }
  intros q' Hq'.
  destruct (hasRole_spec (h1 ++ k) (length h) rs' q' (internal_roles_app _ k _ _ Hint))
    as (b2 & k2 & -> & Hb2).
  destruct (hasRole_spec h1 (length h) rs' q' Hint) as (b1 & k1 & -> & Hb1).
  simpl. f_equal. rewrite overlaps_app in Hb2 by done. rewrite <- Hb1 in Hb2.
  destruct b1, b2; try done; [apply Hb2 | symmetry; apply Hb2]; done.
Qed.

Lemma hasRole_is_pure_witness :
  exists b k,
    hasRole (VRef 4) (VString "admin") sample_bob.2 = (Ret b, sample_bob.2 ++ k)
    /\ elems (sample_bob.2 ++ k) (read_roles (sample_bob.2 ++ k) (VRef 4))
       = elems sample_bob.2 (read_roles sample_bob.2 (VRef 4))
    /\ (hasRole (VRef 4) (VRef 0) (sample_bob.2 ++ k)).1
       = (hasRole (VRef 4) (VRef 0) sample_bob.2).1.
Proof.
  destruct (hasRole_is_pure (VString "bob") (VRef 0) VUndefined sample_heap
              (VRef 4) sample_bob.2 (VString "admin"))
    as (b & k & Heq & _ & _ & He & Hq); [vm_compute; reflexivity|].
  exists b, k. split; [exact Heq|]. split; [exact He|].
  apply Hq. vm_compute. lia.
Defined.

(** ** The constructed object *)








